(** * AI-Resume-Analyzer: the text-to-skills pipeline and the suggestion engine

    A shallow embedding of [services/analyzer.py] and [services/suggestions.py].

    Conventions of the embedding.
    - A Python [str] is a [string]; its characters are the 7-bit ASCII ones:
      [lower], [\s], [\w] and [\d] act on the ASCII letters, blanks and digits
      and leave every other code untouched / unmatched.
    - A Python [set] of strings is a [gset string]; turning it into a list
      ([list(s)], [for x in s]) is [elements], whose order is as unspecified
      as the order of iteration of a Python set.
    - A Python [dict] with string keys is a [gmap]; a dict that is only
      iterated in insertion order ([EXPERIENCE_LEVELS], [ACTION_VERBS]) is an
      association list.
    - A [float] is the exact rational it stands for ([Q]); [round(x, 1)] is
      rounding to the nearest tenth, ties to even.
    - The [re] module is modelled by a backtracking matcher over the syntax
      the source's patterns use (section [Re]). *)

From Stdlib Require Import String Ascii List ZArith NArith QArith Qround Lia Bool.
From Stdlib Require Import DecimalString Sorted Permutation Lqa.
From stdpp Require Import gmap strings list.

Local Open Scope string_scope.
Local Open Scope list_scope.

(** ** Characters and strings, as Python's [str] methods act on them *)

Definition code (c : ascii) : N := N_of_ascii c.

Definition in_range (lo hi : N) (c : ascii) : bool :=
  ((lo <=? code c) && (code c <=? hi))%N.

Definition is_upper (c : ascii) : bool := in_range 65 90 c.
Definition is_lower (c : ascii) : bool := in_range 97 122 c.
Definition is_alpha (c : ascii) : bool := is_upper c || is_lower c.

(** [\d] *)
Definition is_digit (c : ascii) : bool := in_range 48 57 c.

(** [\s], [str.isspace]: tab, line feed, vertical tab, form feed, carriage
    return, the four separators 0x1c..0x1f, and the space. *)
Definition is_space (c : ascii) : bool :=
  in_range 9 13 c || in_range 28 31 c || (code c =? 32)%N.

(** [\w] *)
Definition is_word (c : ascii) : bool :=
  is_alpha c || is_digit c || (code c =? 95)%N.

Definition lower_char (c : ascii) : ascii :=
  if is_upper c then ascii_of_N (code c + 32) else c.

Definition upper_char (c : ascii) : ascii :=
  if is_lower c then ascii_of_N (code c - 32) else c.

(** [str.lower()] *)
Fixpoint lower (s : string) : string :=
  match s with
  | EmptyString => EmptyString
  | String c s' => String (lower_char c) (lower s')
  end.

(** [str.title()]: a cased character is upper-cased after an uncased one
    and lower-cased after a cased one. *)
Fixpoint title_from (prev_cased : bool) (s : string) : string :=
  match s with
  | EmptyString => EmptyString
  | String c s' =>
      String (if prev_cased then lower_char c else upper_char c)
             (title_from (is_alpha c) s')
  end.

Definition title (s : string) : string := title_from false s.

Definition is_empty (s : string) : bool :=
  match s with EmptyString => true | _ => false end.

Fixpoint lstrip (s : string) : string :=
  match s with
  | String c s' => if is_space c then lstrip s' else s
  | EmptyString => EmptyString
  end.

Fixpoint rstrip (s : string) : string :=
  match s with
  | EmptyString => EmptyString
  | String c s' =>
      let r := rstrip s' in
      if is_space c && is_empty r then EmptyString else String c r
  end.

(** [str.strip()] *)
Definition strip (s : string) : string := rstrip (lstrip s).

(** [str.split()] with no separator: the maximal runs of non-blank
    characters.  [cur] is the run being read, reversed. *)
Fixpoint rev_string (acc s : string) : string :=
  match s with
  | EmptyString => acc
  | String c s' => rev_string (String c acc) s'
  end.

Fixpoint split_from (cur : string) (s : string) : list string :=
  match s with
  | EmptyString => if is_empty cur then [] else [rev_string "" cur]
  | String c s' =>
      if is_space c
      then (if is_empty cur then split_from "" s'
            else rev_string "" cur :: split_from "" s')
      else split_from (String c cur) s'
  end.

Definition split (s : string) : list string := split_from "" s.

(** [sep.join(l)] *)
Fixpoint join (sep : string) (l : list string) : string :=
  match l with
  | [] => ""
  | [x] => x
  | x :: l' => x +:+ sep +:+ join sep l'
  end.

(** [needle in hay] *)
Fixpoint contains (needle hay : string) : bool :=
  String.prefix needle hay ||
  match hay with
  | EmptyString => false
  | String _ hay' => contains needle hay'
  end.

(** [l[:n]] *)
Definition slice_to {A} (n : nat) (l : list A) : list A := firstn n l.

(** [str(n)] for a non-negative [int] *)
Definition str_nat (n : nat) : string :=
  NilZero.string_of_uint (Nat.to_uint n).

(** [int(s)] for a string of ASCII digits *)
Fixpoint int_from (acc : Z) (s : string) : Z :=
  match s with
  | EmptyString => acc
  | String c s' => int_from (10 * acc + (Z.of_N (code c) - 48)) s'
  end.

Definition int (s : string) : Z := int_from 0 s.

(** The truth value of a list, [bool(l)]. *)
Definition nonempty {A} (l : list A) : bool :=
  match l with [] => false | _ => true end.

(** ** The [re] module

    The patterns of the source use literals, character classes, greedy
    repetition of a class ([+], [*], [{m,}], [{m,n}]), optional groups,
    alternation, one capturing group, and the anchors [^] and [$].  The
    matcher tries the alternatives in the order Python's backtracking
    engine does, so its first success is Python's match. *)

Module Re.

Inductive regex : Type :=
| Eps
| Lit (s : string)
| Cls (p : ascii -> bool)
| Rep (p : ascii -> bool) (lo : nat) (hi : option nat)
| Seq (r1 r2 : regex)
| Alt (r1 r2 : regex)
| Grp (r : regex)
| Bol
| Eol.

Definition Opt (r : regex) : regex := Alt r Eps.
Definition Chr (c : ascii) : regex := Cls (Ascii.eqb c).
Definition Plus (p : ascii -> bool) : regex := Rep p 1 None.
Definition Star (p : ascii -> bool) : regex := Rep p 0 None.
Definition Cat (l : list regex) : regex := fold_right Seq Eps l.

(** [.], without [re.DOTALL] *)
Definition dot (c : ascii) : bool := negb (code c =? 10)%N.

(** A match in progress: the position reached, the text still to read, and
    what the capturing group holds. *)
Record mstate : Type := MState {
  pos : nat;
  rest : string;
  cap : option string
}.

Definition take (n : nat) (s : string) : string := String.substring 0 n s.

Definition drop (n : nat) (s : string) : string :=
  String.substring n (String.length s - n) s.

Definition may_repeat (hi : option nat) : bool :=
  match hi with Some 0 => false | _ => true end.

Definition dec (hi : option nat) : option nat :=
  match hi with Some n => Some (Nat.pred n) | None => None end.

Section Matcher.
Context {A : Type}.

(** Greedy repetition of a class: read as many characters as allowed,
    then give them back one at a time until the continuation succeeds. *)
Fixpoint rep (p : ascii -> bool) (lo : nat) (hi : option nat)
    (n : nat) (s : string) (c : option string)
    (k : mstate -> option A) : option A :=
  let stop := if Nat.eqb lo 0 then k (MState n s c) else None in
  match s with
  | String a s' =>
      if p a && may_repeat hi
      then match rep p (Nat.pred lo) (dec hi) (S n) s' c k with
           | Some x => Some x
           | None => stop
           end
      else stop
  | EmptyString => stop
  end.

Fixpoint run (r : regex) (st : mstate) (k : mstate -> option A) : option A :=
  match r with
  | Eps => k st
  | Lit l =>
      if String.prefix l (rest st)
      then k (MState (pos st + String.length l)
                     (drop (String.length l) (rest st)) (cap st))
      else None
  | Cls p =>
      match rest st with
      | String a s' => if p a then k (MState (S (pos st)) s' (cap st)) else None
      | EmptyString => None
      end
  | Rep p lo hi => rep p lo hi (pos st) (rest st) (cap st) k
  | Seq r1 r2 => run r1 st (fun st' => run r2 st' k)
  | Alt r1 r2 =>
      match run r1 st k with
      | Some x => Some x
      | None => run r2 st k
      end
  | Grp r1 =>
      run r1 st (fun st' =>
        k (MState (pos st') (rest st')
                  (Some (take (pos st' - pos st) (rest st)))))
  | Bol => if Nat.eqb (pos st) 0 then k st else None
  | Eol =>
      match rest st with
      | EmptyString => k st
      | String a EmptyString => if (code a =? 10)%N then k st else None
      | _ => None
      end
  end.
End Matcher.

(** One match: its text and the text of the capturing group. *)
Record rmatch : Type := RMatch {
  whole : string;
  group : string
}.

(** [pattern.match(s, n)]: the match that starts at position [n], where
    [s] is the text from [n] on. *)
Definition match_at (r : regex) (n : nat) (s : string) : option rmatch :=
  run r (MState n s None)
      (fun st => Some (RMatch (take (pos st - n) s)
                              (match cap st with Some g => g | None => "" end))).

(** The scan of [finditer]: matches are taken left to right and do not
    overlap; after a match of [m] characters the next [m - 1] positions are
    skipped.  [skip] counts the positions still to skip. *)
Fixpoint scan (r : regex) (n skip : nat) (s : string) : list rmatch :=
  match s with
  | EmptyString =>
      match skip, match_at r n s with
      | 0, Some m => [m]
      | _, _ => []
      end
  | String _ s' =>
      match skip with
      | S j => scan r (S n) j s'
      | 0 =>
          match match_at r n s with
          | Some m => m :: scan r (S n) (Nat.pred (String.length (whole m))) s'
          | None => scan r (S n) 0 s'
          end
      end
  end.

Definition finditer (r : regex) (s : string) : list rmatch := scan r 0 0 s.

(** [re.findall] for a pattern without group, and with one group. *)
Definition findall (r : regex) (s : string) : list string :=
  map whole (finditer r s).

Definition findall_group (r : regex) (s : string) : list string :=
  map group (finditer r s).

(** [bool(re.search(r, s))] *)
Fixpoint search_from (r : regex) (n : nat) (s : string) : bool :=
  match match_at r n s with
  | Some _ => true
  | None =>
      match s with
      | EmptyString => false
      | String _ s' => search_from r (S n) s'
      end
  end.

Definition search (r : regex) (s : string) : bool := search_from r 0 s.

(** [re.sub(r, repl, s)] for a replacement without back-references. *)
Fixpoint sub_from (r : regex) (repl : string) (n skip : nat) (s : string) : string :=
  match s with
  | EmptyString =>
      match skip, match_at r n s with
      | 0, Some _ => repl
      | _, _ => ""
      end
  | String a s' =>
      match skip with
      | S j => sub_from r repl (S n) j s'
      | 0 =>
          match match_at r n s with
          | Some m =>
              match String.length (whole m) with
              | 0 => repl +:+ String a (sub_from r repl (S n) 0 s')
              | S j => repl +:+ sub_from r repl (S n) j s'
              end
          | None => String a (sub_from r repl (S n) 0 s')
          end
      end
  end.

Definition sub (r : regex) (repl s : string) : string := sub_from r repl 0 0 s.

End Re.

(** ** services/analyzer.py: the vocabulary *)

Definition SKILL_ALIASES : gmap string string :=
  list_to_map [
    ("js", "javascript"); ("ts", "typescript"); ("py", "python");
    ("node", "node.js"); ("nodejs", "node.js");
    ("react.js", "react"); ("reactjs", "react");
    ("vue.js", "vue"); ("vuejs", "vue");
    ("angular.js", "angular"); ("angularjs", "angular");
    ("postgres", "postgresql"); ("mongo", "mongodb"); ("k8s", "kubernetes");
    ("ml", "machine learning"); ("dl", "deep learning");
    ("ai", "artificial intelligence"); ("nlp", "natural language processing");
    ("cv", "computer vision"); ("aws", "amazon web services");
    ("gcp", "google cloud platform"); ("ci/cd", "ci/cd"); ("cicd", "ci/cd");
    ("dotnet", ".net"); ("csharp", "c#"); ("cpp", "c++"); ("golang", "go");
    ("tf", "terraform"); ("ui", "ui/ux"); ("ux", "ui/ux")
  ].

Definition PROGRAMMING_LANGUAGES : list string := [
  "python"; "java"; "javascript"; "typescript"; "c++"; "c#"; "go"; "rust";
  "ruby"; "php"; "swift"; "kotlin"; "scala"; "r programming"; "matlab";
  "perl"; "bash"; "shell scripting"; "powershell"; "objective-c"; "dart"
].

Definition FRAMEWORKS_LIBRARIES : list string := [
  "react"; "angular"; "vue"; "node.js"; "express"; "django"; "flask";
  "fastapi"; "spring"; "spring boot"; ".net"; "rails"; "laravel";
  "next.js"; "nuxt.js"; "svelte"; "jquery"; "bootstrap"; "tailwind";
  "material ui"; "redux"; "mobx"; "graphql"; "rest api"
].

Definition DATABASES : list string := [
  "sql"; "mysql"; "postgresql"; "mongodb"; "redis"; "elasticsearch";
  "cassandra"; "dynamodb"; "oracle"; "sqlite"; "neo4j"; "firebase";
  "snowflake"; "bigquery"; "couchdb"; "mariadb"
].

Definition CLOUD_DEVOPS : list string := [
  "aws"; "amazon web services"; "azure"; "gcp"; "google cloud platform";
  "docker"; "kubernetes"; "jenkins"; "terraform"; "ansible"; "ci/cd";
  "github actions"; "gitlab ci"; "circleci"; "nginx"; "apache";
  "linux"; "unix"; "devops"; "microservices"; "serverless"
].

Definition DATA_AI_ML : list string := [
  "machine learning"; "deep learning"; "artificial intelligence";
  "data analysis"; "data science"; "pandas"; "numpy"; "tensorflow";
  "pytorch"; "keras"; "scikit-learn"; "natural language processing";
  "computer vision"; "opencv"; "hadoop"; "spark"; "airflow";
  "power bi"; "tableau"; "excel"; "data visualization"; "statistics"
].

Definition TOOLS_PLATFORMS : list string := [
  "git"; "github"; "gitlab"; "bitbucket"; "jira"; "confluence";
  "slack"; "figma"; "adobe xd"; "photoshop"; "illustrator";
  "vs code"; "intellij"; "postman"; "swagger"; "jupyter"
].

Definition SOFT_SKILLS : list string := [
  "communication"; "teamwork"; "leadership"; "problem solving";
  "time management"; "critical thinking"; "adaptability"; "creativity";
  "collaboration"; "attention to detail"; "project management";
  "analytical skills"; "interpersonal skills"; "decision making";
  "conflict resolution"; "presentation skills"; "negotiation";
  "customer service"; "mentoring"; "strategic thinking";
  "public speaking"; "technical writing"; "research"; "agile"; "scrum"
].

Definition ALL_SKILLS : list string :=
  PROGRAMMING_LANGUAGES ++ FRAMEWORKS_LIBRARIES ++ DATABASES ++
  CLOUD_DEVOPS ++ DATA_AI_ML ++ TOOLS_PLATFORMS ++ SOFT_SKILLS.

(** A dict that the code only iterates, in insertion order. *)
Definition EXPERIENCE_LEVELS : list (string * list string) := [
  ("entry", ["entry level"; "junior"; "associate"; "intern"; "internship";
             "fresher"; "graduate"; "0-1 years"; "0-2 years"; "beginner"]);
  ("mid", ["mid level"; "mid-level"; "intermediate"; "2-4 years"; "3-5 years";
           "2+ years"; "3+ years"; "4+ years"]);
  ("senior", ["senior"; "lead"; "principal"; "staff"; "architect";
              "5+ years"; "6+ years"; "7+ years"; "8+ years"; "10+ years";
              "expert"; "advanced"])
].

Definition EDUCATION_KEYWORDS : list (string * list string) := [
  ("phd", ["phd"; "ph.d"; "doctorate"; "doctoral"]);
  ("masters", ["master"; "ms"; "m.s"; "msc"; "m.sc"; "mba"; "ma"; "m.a"]);
  ("bachelors", ["bachelor"; "bs"; "b.s"; "bsc"; "b.sc"; "ba"; "b.a";
                 "btech"; "b.tech"; "be"; "b.e"]);
  ("degree", ["degree"; "graduate"; "graduated"; "university"; "college"])
].

(** ** services/analyzer.py: the functions *)

(** Membership in a character class written as the string of its members. *)
Definition one_of (chars : string) (c : ascii) : bool :=
  existsb (Ascii.eqb c) (list_ascii_of_string chars).

(** [[/\\|,;:\-\(\)\[\]\{\}]] *)
Definition is_separator (c : ascii) : bool := one_of "/\|,;:-()[]{}" c.

(** [[^\w\s\.\+\#]] *)
Definition is_stripped (c : ascii) : bool :=
  negb (is_word c || is_space c || one_of ".+#" c).

(** [[\s,;:\-\(\)\[\]]] *)
Definition is_boundary (c : ascii) : bool := is_space c || one_of ",;:-()[]" c.

Definition preprocess_text (text : string) : string :=
  let text := lower text in
  let text := Re.sub (Re.Cls is_separator) " " text in
  let text := Re.sub (Re.Cls is_stripped) " " text in
  let text := join " " (split text) in
  text.

Definition normalize_skill (skill : string) : string :=
  let skill_lower := strip (lower skill) in
  default skill_lower (SKILL_ALIASES !! skill_lower).

(** [(?:^|B) + re.escape(skill_lower) + (?:$|B)], [B] the boundary class. *)
Definition skill_pattern (skill_lower : string) : Re.regex :=
  Re.Cat [Re.Alt Re.Bol (Re.Cls is_boundary);
          Re.Lit skill_lower;
          Re.Alt Re.Eol (Re.Cls is_boundary)].

(** The loop that appends the canonical form of every alias among [words]. *)
Definition expand_aliases (text_processed : string) (words : list string) : string :=
  fold_left
    (fun text_processed word =>
       let normalized := normalize_skill word in
       if negb (String.eqb normalized word)
       then text_processed +:+ " " +:+ normalized
       else text_processed)
    words text_processed.

Definition extract_skills (text : string) (skill_list : option (list string))
    : list string :=
  let skill_list := default ALL_SKILLS skill_list in
  let text_processed := preprocess_text text in
  let words := split text_processed in
  let text_processed := expand_aliases text_processed words in
  let found_skills : gset string :=
    fold_left
      (fun found_skills skill =>
         let skill_lower := lower skill in
         if Re.search (skill_pattern skill_lower) (" " +:+ text_processed +:+ " ")
         then found_skills ∪ {[skill]}
         else found_skills)
      skill_list ∅ in
  elements found_skills.

Definition get_skill_frequency (text : string) (skills : list string)
    : gmap string nat :=
  let text_processed := preprocess_text text in
  fold_left
    (fun frequency skill =>
       let skill_lower := lower skill in
       let matches :=
         Re.findall (skill_pattern skill_lower) (" " +:+ text_processed +:+ " ") in
       if nonempty matches
       then <[skill := length matches]> frequency
       else frequency)
    skills ∅.

(** The two nested loops shared by the level and the education detectors:
    the keys, in order, one of whose keywords occurs in [text_lower]. *)
Definition detect_in (table : list (string * list string)) (text_lower : string)
    : list string :=
  map fst
    (List.filter (fun entry => existsb (fun keyword => contains keyword text_lower)
                                  (snd entry))
            table).

Definition detect_experience_level (text : string) : string :=
  let text_lower := lower text in
  let detected := detect_in EXPERIENCE_LEVELS text_lower in
  if negb (nonempty detected) then "not specified"
  else if bool_decide ("senior" ∈ detected) then "senior"
  else if bool_decide ("mid" ∈ detected) then "mid"
  else "entry".

(** Words of the year patterns. *)
Definition years_word : Re.regex :=
  Re.Alt (Re.Seq (Re.Lit "year") (Re.Opt (Re.Chr "s")))
         (Re.Seq (Re.Lit "yr") (Re.Opt (Re.Chr "s"))).

Definition year_patterns : list Re.regex := [
  (* (\d+)\+?\s*(?:years?|yrs?)\s*(?:of)?\s*(?:experience|exp)? *)
  Re.Cat [Re.Grp (Re.Plus is_digit); Re.Opt (Re.Chr "+"); Re.Star is_space;
          years_word; Re.Star is_space; Re.Opt (Re.Lit "of");
          Re.Star is_space;
          Re.Opt (Re.Alt (Re.Lit "experience") (Re.Lit "exp"))];
  (* (?:minimum|at least|min)\s*(\d+)\s*(?:years?|yrs?) *)
  Re.Cat [Re.Alt (Re.Lit "minimum") (Re.Alt (Re.Lit "at least") (Re.Lit "min"));
          Re.Star is_space; Re.Grp (Re.Plus is_digit); Re.Star is_space;
          years_word];
  (* (\d+)\s*-\s*\d+\s*(?:years?|yrs?) *)
  Re.Cat [Re.Grp (Re.Plus is_digit); Re.Star is_space; Re.Chr "-";
          Re.Star is_space; Re.Plus is_digit; Re.Star is_space; years_word]
].

(** [min(l)] of a non-empty list, [None] for the empty one. *)
Definition min_list (l : list Z) : option Z :=
  match l with
  | [] => None
  | x :: l' => Some (fold_left Z.min l' x)
  end.

(** The integers the patterns capture, in the order the loop collects them. *)
Definition captured_years (text_lower : string) : list Z :=
  flat_map
    (fun pattern =>
       let matches := Re.findall_group pattern text_lower in
       map int (List.filter (fun m => negb (is_empty m)) matches))
    year_patterns.

Definition extract_years_experience (text : string) : option Z :=
  let text_lower := lower text in
  let years := captured_years text_lower in
  min_list years.

Definition detect_education_requirement (text : string) : list string :=
  let text_lower := lower text in
  detect_in EDUCATION_KEYWORDS text_lower.

(** [x in l] for a list of strings *)
Definition in_list (x : string) (l : list string) : bool := bool_decide (x ∈ l).

Definition append_to (key skill : string) (categories : gmap string (list string))
    : gmap string (list string) :=
  alter (fun l => l ++ [skill]) key categories.

Definition categorize_skills (skills : list string) : gmap string (list string) :=
  let categories : gmap string (list string) :=
    list_to_map [("programming", []); ("frameworks", []); ("databases", []);
                 ("cloud_devops", []); ("data_ai", []); ("tools", []);
                 ("soft_skills", [])] in
  fold_left
    (fun categories skill =>
       let skill_lower := lower skill in
       if in_list skill_lower (map lower PROGRAMMING_LANGUAGES)
       then append_to "programming" skill categories
       else if in_list skill_lower (map lower FRAMEWORKS_LIBRARIES)
       then append_to "frameworks" skill categories
       else if in_list skill_lower (map lower DATABASES)
       then append_to "databases" skill categories
       else if in_list skill_lower (map lower CLOUD_DEVOPS)
       then append_to "cloud_devops" skill categories
       else if in_list skill_lower (map lower DATA_AI_ML)
       then append_to "data_ai" skill categories
       else if in_list skill_lower (map lower TOOLS_PLATFORMS)
       then append_to "tools" skill categories
       else if in_list skill_lower (map lower SOFT_SKILLS)
       then append_to "soft_skills" skill categories
       else categories)
    skills categories.

(** [round(x)]: the nearest integer, ties to the even one. *)
Definition round_half_even (q : Q) : Z :=
  let f := Qfloor q in
  match (q - inject_Z f ?= 1 # 2)%Q with
  | Lt => f
  | Gt => f + 1
  | Eq => if Z.even f then f else f + 1
  end%Z.

(** [round(x, 1)] *)
Definition round1 (q : Q) : Q := (inject_Z (round_half_even (q * 10)) / 10)%Q.

(** The function nested in [calculate_match]. *)
Definition get_original_case (skill_lower : string) : string :=
  match List.filter (fun s => String.eqb (lower s) skill_lower) ALL_SKILLS with
  | s :: _ => s
  | [] => skill_lower
  end.

Definition calculate_match (resume_skills jd_skills : list string)
    : Q * list string * list string * list string :=
  if negb (nonempty jd_skills)
  then (0%Q, [], [], resume_skills)
  else
    let resume_skills_set : gset string := list_to_set (map lower resume_skills) in
    let jd_skills_set : gset string := list_to_set (map lower jd_skills) in
    let matched := resume_skills_set ∩ jd_skills_set in
    let missing := jd_skills_set ∖ resume_skills_set in
    let extra := resume_skills_set ∖ jd_skills_set in
    let score :=
      ((inject_Z (Z.of_nat (size matched)) / inject_Z (Z.of_nat (size jd_skills_set)))
       * 100)%Q in
    let matched_original := map get_original_case (elements matched) in
    let missing_original := map get_original_case (elements missing) in
    let extra_original := map get_original_case (elements extra) in
    (round1 score, matched_original, missing_original, extra_original).

(** [sorted(l)] for a list of strings: the order is the one of the code
    points, character by character.  Python's sort is stable, and so is
    this insertion sort; the sorted list they return is the same. *)
Fixpoint insert_sorted (x : string) (l : list string) : list string :=
  match l with
  | [] => [x]
  | y :: l' => if String.leb x y then x :: l else y :: insert_sorted x l'
  end.

Definition sorted (l : list string) : list string :=
  fold_right insert_sorted [] l.

(** The analysis result, a dict: a key that is absent is [None]. *)
Record analysis_results : Type := AnalysisResults {
  match_score : option Q;
  matched_skills : option (list string);
  missing_skills : option (list string);
  extra_skills : option (list string);
  high_priority_missing : option (list string);
  matched_categories : option (gmap string (list string));
  missing_categories : option (gmap string (list string));
  resume_skill_count : option nat;
  jd_skill_count : option nat;
  jd_experience_level : option string;
  (** [None] is also the value the key holds when no year was found. *)
  jd_years_required : option Z;
  jd_education : option (list string);
  resume_experience_level : option string;
  resume_education : option (list string)
}.

Definition analyze_resume (resume_text job_description : string) : analysis_results :=
  let resume_skills := extract_skills resume_text None in
  let jd_skills := extract_skills job_description None in
  let '(score, matched, missing, extra) := calculate_match resume_skills jd_skills in
  let jd_skill_freq := get_skill_frequency job_description jd_skills in
  let matched_categories := categorize_skills matched in
  let missing_categories := categorize_skills missing in
  let jd_experience_level := detect_experience_level job_description in
  let jd_years_required := extract_years_experience job_description in
  let jd_education := detect_education_requirement job_description in
  let resume_experience_level := detect_experience_level resume_text in
  let resume_education := detect_education_requirement resume_text in
  let high_priority_missing :=
    List.filter (fun skill => (2 <=? default 0 (jd_skill_freq !! skill))%nat) missing in
  {| match_score := Some score;
     matched_skills := Some (sorted matched);
     missing_skills := Some (sorted missing);
     extra_skills := Some (sorted extra);
     high_priority_missing := Some (sorted high_priority_missing);
     matched_categories := Some matched_categories;
     missing_categories := Some missing_categories;
     resume_skill_count := Some (length resume_skills);
     jd_skill_count := Some (length jd_skills);
     jd_experience_level := Some jd_experience_level;
     jd_years_required := jd_years_required;
     jd_education := Some jd_education;
     resume_experience_level := Some resume_experience_level;
     resume_education := Some resume_education |}.

(** ** services/suggestions.py *)

Definition ACTION_VERBS : list (string * list string) := [
  ("leadership", ["led"; "managed"; "directed"; "supervised"; "coordinated"; "oversaw"]);
  ("achievement", ["achieved"; "accomplished"; "exceeded"; "delivered"; "completed"]);
  ("creation", ["created"; "designed"; "developed"; "built"; "implemented"; "launched"]);
  ("improvement", ["improved"; "enhanced"; "optimized"; "streamlined"; "reduced"; "increased"]);
  ("technical", ["engineered"; "architected"; "automated"; "integrated"; "deployed"; "configured"]);
  ("analysis", ["analyzed"; "evaluated"; "assessed"; "researched"; "investigated"; "identified"])
].

Definition ALL_ACTION_VERBS : list string := flat_map snd ACTION_VERBS.

Definition IMPORTANT_SECTIONS : list string :=
  ["experience"; "education"; "skills"; "projects"; "summary"; "objective"].

(** [sum(len(v) for v in found.values())] *)
Definition total_len (found : list (string * list string)) : nat :=
  fold_right (fun entry n => length (snd entry) + n) 0 found.

Definition check_action_verbs (resume_text : string)
    : list (string * list string) * nat :=
  let text_lower := lower resume_text in
  let found :=
    map (fun entry =>
           (fst entry,
            List.filter (fun verb => contains verb text_lower) (snd entry)))
        ACTION_VERBS in
  let total_found := total_len found in
  (found, total_found).

Definition metric_patterns : list Re.regex := [
  (* \d+% *)
  Re.Cat [Re.Plus is_digit; Re.Chr "%"];
  (* \$[\d,]+ *)
  Re.Cat [Re.Chr "$"; Re.Plus (fun c => is_digit c || one_of "," c)];
  (* \d+\+ *)
  Re.Cat [Re.Plus is_digit; Re.Chr "+"];
  (* \d{2,} *)
  Re.Rep is_digit 2 None;
  (* #\d+ *)
  Re.Cat [Re.Chr "#"; Re.Plus is_digit]
].

Definition check_quantifiable_achievements (resume_text : string)
    : nat * list string :=
  let metrics :=
    flat_map (fun pattern => Re.findall pattern resume_text) metric_patterns in
  (length metrics, slice_to 10 metrics).

(** [s.split(sep)] for a separator of one character. *)
Fixpoint split_on (sep : ascii) (cur : string) (s : string) : list string :=
  match s with
  | EmptyString => [rev_string "" cur]
  | String c s' =>
      if Ascii.eqb c sep
      then rev_string "" cur :: split_on sep "" s'
      else split_on sep (String c cur) s'
  end.

Definition check_resume_length (resume_text : string) : nat * nat :=
  let word_count := length (split resume_text) in
  let line_count := length (split_on "010" "" resume_text) in
  (word_count, line_count).

Definition check_sections (resume_text : string) : list string * list string :=
  let text_lower := lower resume_text in
  let found := List.filter (fun s => contains s text_lower) IMPORTANT_SECTIONS in
  let missing :=
    List.filter (fun s => negb (contains s text_lower)) IMPORTANT_SECTIONS in
  (found, missing).

(** The dict of the five checks. *)
Record contact_checks : Type := ContactChecks {
  email : bool;
  phone : bool;
  linkedin : bool;
  github : bool;
  portfolio : bool
}.

(** [[\w\.-]+@[\w\.-]+\.\w+] *)
Definition email_pattern : Re.regex :=
  let name c := is_word c || one_of ".-" c in
  Re.Cat [Re.Plus name; Re.Chr "@"; Re.Plus name; Re.Chr "."; Re.Plus is_word].

(** [[\+]?[\d\s\-\(\)]{10,}] *)
Definition phone_pattern : Re.regex :=
  Re.Cat [Re.Opt (Re.Chr "+");
          Re.Rep (fun c => is_digit c || is_space c || one_of "-()" c) 10 None].

Definition check_contact_info (resume_text : string) : contact_checks :=
  {| email := Re.search email_pattern resume_text;
     phone := Re.search phone_pattern resume_text;
     linkedin := contains "linkedin" (lower resume_text);
     github := contains "github" (lower resume_text);
     portfolio :=
       existsb (fun word => contains word (lower resume_text))
               ["portfolio"; "website"; "blog"] |}.

(** [verb.{0,50}skill|skill.{0,50}verb], the skill escaped. *)
Definition context_pattern (verb skill_lower : string) : Re.regex :=
  Re.Alt (Re.Cat [Re.Lit verb; Re.Rep Re.dot 0 (Some 50); Re.Lit skill_lower])
         (Re.Cat [Re.Lit skill_lower; Re.Rep Re.dot 0 (Some 50); Re.Lit verb]).

Definition check_keyword_stuffing (resume_text : string) (skills : list string)
    : nat * nat :=
  let text_lower := lower resume_text in
  let contextual_skills :=
    length
      (List.filter
         (fun skill =>
            let skill_lower := lower skill in
            existsb (fun verb => Re.search (context_pattern verb skill_lower) text_lower)
                    ALL_ACTION_VERBS)
         skills) in
  (contextual_skills, length skills).

Record suggestion : Type := Suggestion {
  type : string;
  category : string;
  message : string
}.

(** [str(n)] for an [int] *)
Definition str_int (n : Z) : string := NilZero.string_of_int (Z.to_int n).

(** [str(x)] for a float that is a whole number of tenths, as the scores
    that [calculate_match] returns are; the [int] 0 stands for an absent
    score. *)
Definition str_score (score : option Q) : string :=
  match score with
  | None => "0"
  | Some q =>
      let t := round_half_even (q * 10) in
      (if (t <? 0)%Z then "-" else "") +:+
      str_int (Z.abs t / 10) +:+ "." +:+ str_int (Z.abs t mod 10)
  end.

Definition Qlt_bool (x y : Q) : bool := negb (Qle_bool y x).

(** A double quote, for the messages that quote examples. *)
Definition dq : string := String "034" "".

(** [d.get(key)] as a truth value, and [d[key]], for a dict of lists. *)
Definition get_list (d : gmap string (list string)) (key : string) : list string :=
  default [] (d !! key).

(** 1. Overall match score feedback *)
Definition score_feedback (a : analysis_results) : list suggestion :=
  let shown := str_score (match_score a) in
  let match_score := default 0%Q (match_score a) in
  if Qle_bool 80 match_score then
    [Suggestion "success" "Match Score"
       ("Excellent match (" +:+ shown +:+ "%)! Your skills align very well with this job. Focus on tailoring your experience descriptions to highlight relevant achievements.")]
  else if Qle_bool 60 match_score then
    [Suggestion "info" "Match Score"
       ("Good match (" +:+ shown +:+ "%)! You have a solid foundation. Adding a few more relevant skills could push your application to the top.")]
  else if Qle_bool 40 match_score then
    [Suggestion "warning" "Match Score"
       ("Moderate match (" +:+ shown +:+ "%). Consider emphasizing transferable skills and any relevant projects or coursework.")]
  else
    [Suggestion "danger" "Match Score"
       ("Low match (" +:+ shown +:+ "%). This role may require skills you haven't highlighted. Consider if you have relevant experience that isn't reflected in your resume.")].

(** 2. High priority missing skills *)
Definition critical_gap_feedback (a : analysis_results) : list suggestion :=
  let high_priority_missing := default [] (high_priority_missing a) in
  if nonempty high_priority_missing then
    [Suggestion "danger" "Critical Skills Gap"
       ("These skills are mentioned multiple times in the job description and are likely essential: "
        +:+ join ", " (slice_to 5 high_priority_missing))]
  else [].

(** 3. Category-specific missing skills *)
Definition category_feedback (a : analysis_results) : list suggestion :=
  let missing_categories := default ∅ (missing_categories a) in
  (if nonempty (get_list missing_categories "programming") then
     [Suggestion "warning" "Programming Languages"
        ("Missing programming languages: "
         +:+ join ", " (slice_to 4 (get_list missing_categories "programming"))
         +:+ ". If you have experience with similar languages, highlight your ability to learn quickly.")]
   else []) ++
  (if nonempty (get_list missing_categories "frameworks") then
     [Suggestion "warning" "Frameworks"
        ("Missing frameworks/libraries: "
         +:+ join ", " (slice_to 4 (get_list missing_categories "frameworks"))
         +:+ ". Consider adding relevant projects to demonstrate these skills.")]
   else []) ++
  (if nonempty (get_list missing_categories "cloud_devops") then
     [Suggestion "info" "Cloud/DevOps"
        ("Missing cloud/DevOps skills: "
         +:+ join ", " (slice_to 4 (get_list missing_categories "cloud_devops"))
         +:+ ". Free tier accounts on AWS/Azure can help you gain hands-on experience.")]
   else []).

(** 4. Experience level match *)
Definition experience_feedback (a : analysis_results) : list suggestion :=
  let jd_experience_level := default "not specified" (jd_experience_level a) in
  let jd_years_required := jd_years_required a in
  (if negb (String.eqb jd_experience_level "not specified") then
     [Suggestion "info" "Experience Level"
        ("This appears to be a " +:+ jd_experience_level +:+ "-level position. "
         +:+ (if String.eqb jd_experience_level "senior"
              then "Highlight your growth and quick learning ability."
              else "Your enthusiasm and recent projects can compensate for less experience."))]
   else []) ++
  (match jd_years_required with
   | Some years =>
       if negb (years =? 0)%Z then
         [Suggestion "info" "Years Required"
            ("The job requires approximately " +:+ str_int years
             +:+ "+ years of experience. Include all relevant experience including internships, freelance work, and significant personal projects.")]
       else []
   | None => []
   end).

(** 5. Action verbs check *)
Definition action_verb_feedback (resume_text : string) : list suggestion :=
  let '(verb_categories, total_verbs) := check_action_verbs resume_text in
  if (total_verbs <? 5)%nat then
    [Suggestion "warning" "Action Verbs"
       "Your resume lacks strong action verbs. Start bullet points with words like: Led, Developed, Implemented, Achieved, Optimized, Delivered."]
  else if (total_verbs <? 10)%nat then
    let weak_categories :=
      map fst (List.filter (fun entry => negb (nonempty (snd entry))) verb_categories) in
    if nonempty weak_categories then
      [Suggestion "info" "Action Verbs"
         ("Consider adding more " +:+ join ", " (slice_to 2 weak_categories)
          +:+ " action verbs to showcase different aspects of your experience.")]
    else []
  else [].

(** 6. Quantifiable achievements *)
Definition metrics_feedback (resume_text : string) : list suggestion :=
  let '(metric_count, metrics) := check_quantifiable_achievements resume_text in
  if (metric_count =? 0)%nat then
    [Suggestion "warning" "Quantifiable Results"
       ("No metrics found! Add numbers to demonstrate impact: "
        +:+ dq +:+ "Increased sales by 25%" +:+ dq +:+ ", "
        +:+ dq +:+ "Reduced load time by 40%" +:+ dq +:+ ", "
        +:+ dq +:+ "Managed team of 5" +:+ dq +:+ ", "
        +:+ dq +:+ "Processed 10K+ records daily" +:+ dq +:+ ".")]
  else if (metric_count <? 4)%nat then
    [Suggestion "info" "Quantifiable Results"
       ("Found " +:+ str_nat metric_count
        +:+ " metrics. Try to add more quantifiable achievements to each role - aim for at least 2-3 per position.")]
  else [].

(** 7. Resume length *)
Definition length_feedback (resume_text : string) : list suggestion :=
  let '(word_count, _) := check_resume_length resume_text in
  if (word_count <? 200)%nat then
    [Suggestion "warning" "Content Length"
       ("Your resume seems too short (" +:+ str_nat word_count
        +:+ " words). Add more details about your responsibilities, achievements, and projects.")]
  else if (1200 <? word_count)%nat then
    [Suggestion "info" "Content Length"
       ("Your resume is quite long (" +:+ str_nat word_count
        +:+ " words). For most roles, keep it to 1-2 pages. Prioritize the most relevant information.")]
  else [].

(** 8. Sections check *)
Definition sections_feedback (resume_text : string) : list suggestion :=
  let '(found_sections, missing_sections) := check_sections resume_text in
  let critical_missing :=
    List.filter (fun s => in_list s ["experience"; "education"; "skills"])
                missing_sections in
  if nonempty critical_missing then
    [Suggestion "danger" "Resume Structure"
       ("Missing critical sections: " +:+ title (join ", " critical_missing)
        +:+ ". These are essential for most job applications.")]
  else [].

(** 9. Contact information *)
Definition contact_feedback (resume_text : string) : list suggestion :=
  let contact_info := check_contact_info resume_text in
  (if negb (email contact_info) then
     [Suggestion "danger" "Contact Info"
        "No email address detected! Make sure your contact information is clearly visible at the top of your resume."]
   else []) ++
  (if negb (linkedin contact_info) && negb (github contact_info) then
     [Suggestion "info" "Online Presence"
        "Consider adding LinkedIn or GitHub profiles to showcase your professional network and code samples."]
   else []).

(** 10. Skills in context *)
Definition context_feedback (resume_text : string) (a : analysis_results)
    : list suggestion :=
  let matched_skills := default [] (matched_skills a) in
  if nonempty matched_skills then
    let '(contextual, total) := check_keyword_stuffing resume_text matched_skills in
    if (0 <? total)%nat &&
       Qlt_bool (inject_Z (Z.of_nat contextual) / inject_Z (Z.of_nat total)) (3 # 10)
    then
      [Suggestion "info" "Skills Integration"
         "Your skills appear to be listed but not demonstrated in context. Show how you used each skill in your experience descriptions."]
    else []
  else [].

(** 11. ATS tips *)
Definition ats_tip : suggestion :=
  Suggestion "info" "ATS Optimization"
    "For ATS compatibility: Use standard section headings, avoid tables/graphics, save as PDF, and include exact keywords from the job description.".

(** 12. Education match (if specified in the job description) *)
Definition education_feedback (a : analysis_results) : list suggestion :=
  let jd_education := default [] (jd_education a) in
  if in_list "masters" jd_education || in_list "phd" jd_education then
    let resume_edu := default [] (resume_education a) in
    if in_list "masters" jd_education && negb (in_list "masters" resume_edu)
       && negb (in_list "phd" resume_edu)
    then
      [Suggestion "info" "Education"
         "This position may prefer advanced degrees. Emphasize relevant coursework, certifications, and hands-on project experience."]
    else []
  else [].

(** The function appends to one list, block after block. *)
Definition generate_suggestions (resume_text : string) (analysis_results : analysis_results)
    : list suggestion :=
  score_feedback analysis_results ++
  critical_gap_feedback analysis_results ++
  category_feedback analysis_results ++
  experience_feedback analysis_results ++
  action_verb_feedback resume_text ++
  metrics_feedback resume_text ++
  length_feedback resume_text ++
  sections_feedback resume_text ++
  contact_feedback resume_text ++
  context_feedback resume_text analysis_results ++
  [ats_tip] ++
  education_feedback analysis_results.

Definition get_score_category (score : Q) : string * string :=
  if Qle_bool 80 score then ("Excellent", "success")
  else if Qle_bool 60 score then ("Good", "info")
  else if Qle_bool 40 score then ("Fair", "warning")
  else ("Needs Work", "danger").

(** ** Notions the statements below use *)

(** The set a list of skills denotes once case is ignored. *)
Definition lower_set (l : list string) : gset string := list_to_set (map lower l).

(** [k] occurs in [t] as a substring. *)
Definition occurs_in (k t : string) : Prop :=
  exists pre post : string, t = pre +:+ k +:+ post.

(** The order of [sorted]: code point by code point. *)
Definition ordinal_le (s t : string) : Prop := String.leb s t = true.

(** A name spelled as the vocabulary spells it. *)
Definition canonical (x : string) : Prop := x ∈ ALL_SKILLS.

(** [field] holds the list [raw], sorted, and every name in it is spelled as
    in the vocabulary. *)
Definition sorted_canonical_of (raw : list string) (field : option (list string))
    : Prop :=
  exists l, field = Some l /\ Permutation raw l /\
            Sorted ordinal_le l /\ Forall canonical l.

(** A level of [table] one of whose keywords occurs in [text_lower]. *)
Definition mentions (table : list (string * list string)) (level text_lower : string)
    : Prop :=
  exists keywords keyword,
    (level, keywords) ∈ table /\ keyword ∈ keywords /\ occurs_in keyword text_lower.

(** [hay.count(needle)]: the occurrences of [needle], left to right and not
    overlapping.  [skip] counts the characters of the last occurrence still
    to pass. *)
Fixpoint count_from (needle : string) (skip : nat) (hay : string) : nat :=
  match hay with
  | EmptyString => 0
  | String _ hay' =>
      match skip with
      | S j => count_from needle j hay'
      | 0 =>
          if String.prefix needle hay
          then S (count_from needle (Nat.pred (String.length needle)) hay')
          else count_from needle 0 hay'
      end
  end.

Definition count_occurrences (needle hay : string) : nat := count_from needle 0 hay.

(** The count of the action-verb rule as the specification words it: the
    occurrences of every verb of the list, added up.  The code's count is
    [check_action_verbs]. *)
Definition spec_verb_occurrences (resume_text : string) : nat :=
  fold_right (fun verb n => count_occurrences verb (lower resume_text) + n) 0
             ALL_ACTION_VERBS.

(** The verbs of the list that occur in the text, each once. *)
Definition verbs_present (resume_text : string) : list string :=
  List.filter (fun verb => contains verb (lower resume_text)) ALL_ACTION_VERBS.

(** The categories none of whose verbs occurs in the text. *)
Definition weak_categories (resume_text : string) : list string :=
  map fst
    (List.filter
       (fun entry =>
          negb (existsb (fun verb => contains verb (lower resume_text)) (snd entry)))
       ACTION_VERBS).

(** An analysis result whose job description mentions a doctorate only and
    whose resume shows no degree. *)
Definition jd_phd_only : analysis_results :=
  {| match_score := Some 50%Q; matched_skills := Some []; missing_skills := Some [];
     extra_skills := Some []; high_priority_missing := Some [];
     matched_categories := Some ∅; missing_categories := Some ∅;
     resume_skill_count := Some 0; jd_skill_count := Some 0;
     jd_experience_level := Some "not specified"; jd_years_required := None;
     jd_education := Some ["phd"]; resume_experience_level := Some "not specified";
     resume_education := Some [] |}.

(** An item of a rule other than the score band. *)
Definition other_category (s : suggestion) : Prop := category s <> "Match Score".

(** What may follow, and what may precede, a skill for the pattern to find
    it: the end of the text or a boundary character, the start or a boundary
    character. *)
Definition right_ok (post : string) : Prop :=
  post = "" \/ exists c post', post = String c post' /\ is_boundary c = true.

Definition left_ok (pre : string) : Prop :=
  pre = "" \/ exists pre' c, pre = pre' +:+ String c "" /\ is_boundary c = true.

(** [k] occurs in [s] with a boundary, or an end of the text, on each side. *)
Definition flanked (k s : string) : Prop :=
  exists pre post, s = pre +:+ k +:+ post /\ left_ok pre /\ right_ok post.

(** Every character of [s] is in the class [p]. *)
Fixpoint chars_all (p : ascii -> bool) (s : string) : bool :=
  match s with
  | EmptyString => true
  | String c s' => p c && chars_all p s'
  end.

(** The characters of a normalized text: the blank, the lower-case letters,
    the digits, the underscore, and the three signs kept for the names of
    languages. *)
Definition norm_char (c : ascii) : bool :=
  (code c =? 32)%N || is_lower c || is_digit c || (code c =? 95)%N || one_of ".+#" c.

(** Any character but the hyphen. *)
Definition not_hyphen (c : ascii) : bool := negb (Ascii.eqb c "-").

(** Any character but the slash. *)
Definition not_slash (c : ascii) : bool := negb (Ascii.eqb c "/").

(** The text in which [extract_skills] looks for the skills. *)
Definition searched_text (text : string) : string :=
  let text_processed := preprocess_text text in
  " " +:+ expand_aliases text_processed (split text_processed) +:+ " ".

(** The text in which [get_skill_frequency] counts the skills. *)
Definition counted_text (text : string) : string :=
  " " +:+ preprocess_text text +:+ " ".

(** The categories of the items, in the order of the rules that emit them. *)
Definition SUGGESTION_CATEGORIES : list string := [
  "Match Score"; "Critical Skills Gap"; "Programming Languages"; "Frameworks";
  "Cloud/DevOps"; "Experience Level"; "Years Required"; "Action Verbs";
  "Quantifiable Results"; "Content Length"; "Resume Structure"; "Contact Info";
  "Online Presence"; "Skills Integration"; "ATS Optimization"; "Education"
].

(** The four severities. *)
Definition SUGGESTION_TYPES : list string := ["success"; "info"; "warning"; "danger"].

(** A block of the cascade emits items of the categories [cats], in that
    order and each at most once, and of the four types. *)
Definition emits (cats : list string) (block : list suggestion) : Prop :=
  map category block `sublist_of` cats /\
  Forall (fun s => type s ∈ SUGGESTION_TYPES) block.

(** The keys of the dict that [categorize_skills] returns. *)
Definition CATEGORY_KEYS : list string :=
  ["programming"; "frameworks"; "databases"; "cloud_devops"; "data_ai"; "tools";
   "soft_skills"].

(** The category that the chain of tests of [categorize_skills] gives a
    lower-cased name: the first list of the vocabulary that holds it. *)
Definition category_key (skill_lower : string) : option string :=
  if in_list skill_lower (map lower PROGRAMMING_LANGUAGES) then Some "programming"
  else if in_list skill_lower (map lower FRAMEWORKS_LIBRARIES) then Some "frameworks"
  else if in_list skill_lower (map lower DATABASES) then Some "databases"
  else if in_list skill_lower (map lower CLOUD_DEVOPS) then Some "cloud_devops"
  else if in_list skill_lower (map lower DATA_AI_ML) then Some "data_ai"
  else if in_list skill_lower (map lower TOOLS_PLATFORMS) then Some "tools"
  else if in_list skill_lower (map lower SOFT_SKILLS) then Some "soft_skills"
  else None.

(** The skills of [skills] that go to the category [key], in their order. *)
Definition skills_of_category (key : string) (skills : list string) : list string :=
  List.filter (fun skill => bool_decide (category_key (lower skill) = Some key)) skills.

(** * Properties *)

(** ** Strings *)

Lemma lower_char_idem (c : ascii) : lower_char (lower_char c) = lower_char c.
Proof. destruct c as [[] [] [] [] [] [] [] []]; reflexivity. Qed.

Lemma lower_idem (s : string) : lower (lower s) = lower s.
Proof.
  induction s as [|c s IH]; simpl; [reflexivity|].
  now rewrite lower_char_idem, IH.
Qed.

Lemma append_cons (a : ascii) (s t : string) :
  String a s +:+ t = String a (s +:+ t).
Proof. reflexivity. Qed.

Lemma append_empty (t : string) : "" +:+ t = t.
Proof. reflexivity. Qed.

Lemma prefix_occurs (k t : string) :
  String.prefix k t = true <-> exists post, t = k +:+ post.
Proof.
  revert t. induction k as [|a k IH]; intros t.
  - split; [intros _; now exists t | intros _; now destruct t].
  - destruct t as [|b t]; simpl.
    + split; [discriminate | intros [post H]; discriminate].
    + destruct (Ascii.ascii_dec a b) as [->|Hne].
      * rewrite IH.
        split; intros [post H]; exists post; rewrite append_cons in *; congruence.
      * split; [discriminate|].
        intros [post H]. rewrite append_cons in H. congruence.
Qed.

Lemma contains_occurs (k t : string) : contains k t = true <-> occurs_in k t.
Proof.
  unfold occurs_in. induction t as [|b t IH].
  - cbn [contains]. rewrite orb_false_r, prefix_occurs. split.
    + intros [post H]. now exists "", post.
    + intros [pre [post H]]. destruct pre; [now exists post | discriminate].
  - cbn [contains]. rewrite orb_true_iff, prefix_occurs, IH. split.
    + intros [[post H] | [pre [post H]]].
      * now exists "", post.
      * exists (String b pre), post. rewrite append_cons. now rewrite H.
    + intros [[|c pre] [post H]].
      * left. now exists post.
      * right. exists pre, post. rewrite append_cons in H. congruence.
Qed.

(** ** calculate_match *)

Lemma get_original_case_lower (s : string) :
  lower (get_original_case (lower s)) = lower s.
Proof.
  unfold get_original_case.
  destruct (List.filter _ ALL_SKILLS) as [|v l] eqn:E.
  - apply lower_idem.
  - assert (In v (List.filter (fun x => String.eqb (lower x) (lower s)) ALL_SKILLS)) as Hin
      by (rewrite E; now left).
    apply filter_In in Hin as [_ Hv]. now apply String.eqb_eq in Hv.
Qed.

Lemma elem_of_lower_set (x : string) (l : list string) :
  x ∈ lower_set l <-> exists y, y ∈ l /\ x = lower y.
Proof.
  unfold lower_set. rewrite elem_of_list_to_set.
  change (map lower l) with (lower <$> l). rewrite list_elem_of_fmap.
  split; intros [y [H1 H2]]; exists y; auto.
Qed.

Lemma lower_set_lowercase (x : string) (l : list string) :
  x ∈ lower_set l -> lower x = x.
Proof.
  rewrite elem_of_lower_set. intros [y [_ ->]]. apply lower_idem.
Qed.

(** Restoring the case of a set of lower-case names and lowering it again
    gives the set back. *)
Lemma lower_set_original (X : gset string) :
  (forall x, x ∈ X -> lower x = x) ->
  lower_set (map get_original_case (elements X)) = X.
Proof.
  intros HX. apply set_eq. intros x. rewrite elem_of_lower_set. split.
  - intros [y [Hy ->]].
    change (map get_original_case (elements X))
      with (get_original_case <$> elements X) in Hy.
    apply list_elem_of_fmap in Hy as [z [-> Hz]].
    apply elem_of_elements in Hz.
    rewrite <- (HX z Hz), get_original_case_lower, (HX z Hz). exact Hz.
  - intros Hx. exists (get_original_case x). split.
    + change (map get_original_case (elements X))
        with (get_original_case <$> elements X).
      apply list_elem_of_fmap. exists x. split; [reflexivity|].
      now apply elem_of_elements.
    + rewrite <- (HX x Hx) at 2. rewrite get_original_case_lower. symmetry. auto.
Qed.

(** C1. Whatever the two skill lists are, the lists [calculate_match]
    returns partition them once case is ignored: matched and missing make
    up the job description's skills and share none, matched and extra make
    up the resume's skills and share none. *)
Theorem calculate_match_partition (resume_skills jd_skills : list string) :
  let '(_, matched, missing, extra) := calculate_match resume_skills jd_skills in
  lower_set matched ∪ lower_set missing = lower_set jd_skills /\
  lower_set matched ∩ lower_set missing = ∅ /\
  lower_set matched ∪ lower_set extra = lower_set resume_skills /\
  lower_set matched ∩ lower_set extra = ∅.
Proof.
  unfold calculate_match. destruct jd_skills as [|j jd_skills]; simpl negb; cbv iota.
  - unfold lower_set; simpl. set_solver.
  - set (R := list_to_set (map lower resume_skills) : gset string).
    set (J := list_to_set (map lower (j :: jd_skills)) : gset string).
    assert (HR : forall x, x ∈ R -> lower x = x)
      by (intros x; apply lower_set_lowercase).
    assert (HJ : forall x, x ∈ J -> lower x = x)
      by (intros x; apply lower_set_lowercase).
    rewrite !lower_set_original by set_solver.
    fold (lower_set resume_skills) in R. fold (lower_set (j :: jd_skills)) in J.
    change (lower_set resume_skills) with R.
    change (lower_set (j :: jd_skills)) with J.
    repeat split.
    + apply set_eq. intros x. destruct (decide (x ∈ R)); set_solver.
    + set_solver.
    + apply set_eq. intros x. destruct (decide (x ∈ J)); set_solver.
    + set_solver.
Qed.

(** Rounding does not cross an integer. *)
Lemma round_half_even_ge (z : Z) (q : Q) :
  (inject_Z z <= q)%Q -> (z <= round_half_even q)%Z.
Proof.
  intros H. unfold round_half_even.
  assert (z <= Qfloor q)%Z as Hf.
  { rewrite <- (Qfloor_Z z). now apply Qfloor_resp_le. }
  destruct (q - inject_Z (Qfloor q) ?= 1 # 2)%Q; [destruct (Z.even _)|..]; lia.
Qed.

Lemma round_half_even_le (z : Z) (q : Q) :
  (q <= inject_Z z)%Q -> (round_half_even q <= z)%Z.
Proof.
  intros H. unfold round_half_even.
  assert (Qfloor q <= z)%Z as Hf.
  { rewrite <- (Qfloor_Z z). now apply Qfloor_resp_le. }
  destruct (Z.eq_dec (Qfloor q) z) as [E|E].
  - assert (q - inject_Z (Qfloor q) < 1 # 2)%Q as Hlt.
    { rewrite E. lra. }
    rewrite Qlt_alt in Hlt. rewrite Hlt. lia.
  - destruct (q - inject_Z (Qfloor q) ?= 1 # 2)%Q; [destruct (Z.even _)|..]; lia.
Qed.

Lemma round1_bounds (q : Q) : (0 <= q)%Q -> (q <= 100)%Q ->
  (0 <= round1 q)%Q /\ (round1 q <= 100)%Q.
Proof.
  intros H0 H100. unfold round1.
  assert (0 <= round_half_even (q * 10))%Z as Hlo
    by (apply round_half_even_ge; change (inject_Z 0) with 0%Q; lra).
  assert (round_half_even (q * 10) <= 1000)%Z as Hhi
    by (apply round_half_even_le; change (inject_Z 1000) with 1000%Q; lra).
  rewrite Zle_Qle in Hlo, Hhi.
  change (inject_Z 0) with 0%Q in Hlo. change (inject_Z 1000) with 1000%Q in Hhi.
  split.
  - apply Qle_shift_div_l; [reflexivity | lra].
  - apply Qle_shift_div_r; [reflexivity | lra].
Qed.

(** The quotient of the two sizes, as a percentage. *)
Lemma percentage_bounds (m n : nat) : (m <= n)%nat -> (0 < n)%nat ->
  (0 <= inject_Z (Z.of_nat m) / inject_Z (Z.of_nat n) * 100)%Q /\
  (inject_Z (Z.of_nat m) / inject_Z (Z.of_nat n) * 100 <= 100)%Q.
Proof.
  intros Hmn Hn.
  assert (0 < inject_Z (Z.of_nat n))%Q as Hn'
    by (change 0%Q with (inject_Z 0); rewrite <- Zlt_Qlt; lia).
  assert (0 <= inject_Z (Z.of_nat m))%Q as Hm'
    by (change 0%Q with (inject_Z 0); rewrite <- Zle_Qle; lia).
  assert (inject_Z (Z.of_nat m) <= inject_Z (Z.of_nat n))%Q as Hmn'
    by (rewrite <- Zle_Qle; lia).
  assert (0 <= inject_Z (Z.of_nat m) / inject_Z (Z.of_nat n))%Q as H1
    by (apply Qle_shift_div_l; [assumption | lra]).
  assert (inject_Z (Z.of_nat m) / inject_Z (Z.of_nat n) <= 1)%Q as H2
    by (apply Qle_shift_div_r; [assumption | lra]).
  split; lra.
Qed.

Lemma size_pos_of_elem (x : string) (X : gset string) :
  x ∈ X -> (0 < size X)%nat.
Proof.
  intros Hx. assert (size X <> 0) by (apply size_non_empty_iff; set_solver). lia.
Qed.

(** C2. With no job-description skill the score is 0.0, matched and missing
    are empty and extra is the resume's list as it was given; with at least
    one, the score lies between 0 and 100. *)
Theorem calculate_match_score (resume_skills jd_skills : list string) :
  let '(score, matched, missing, extra) := calculate_match resume_skills jd_skills in
  (jd_skills = [] ->
     score = 0%Q /\ matched = [] /\ missing = [] /\ extra = resume_skills) /\
  (jd_skills <> [] -> (0 <= score)%Q /\ (score <= 100)%Q).
Proof.
  unfold calculate_match. destruct jd_skills as [|j jd_skills]; simpl negb; cbv iota.
  - split; [auto | congruence].
  - split; [discriminate | intros _].
    apply round1_bounds; apply percentage_bounds.
    + apply subseteq_size. set_solver.
    + apply (size_pos_of_elem (lower j)). set_solver.
    + apply subseteq_size. set_solver.
    + apply (size_pos_of_elem (lower j)). set_solver.
Qed.

(** ** sorted *)

Lemma insert_sorted_perm (x : string) (l : list string) :
  Permutation (x :: l) (insert_sorted x l).
Proof.
  induction l as [|y l IH]; simpl; [reflexivity|].
  destruct (String.leb x y); [reflexivity|].
  rewrite perm_swap. now apply perm_skip.
Qed.

Lemma sorted_perm (l : list string) : Permutation l (sorted l).
Proof.
  induction l as [|x l IH]; simpl; [reflexivity|].
  rewrite <- insert_sorted_perm. now apply perm_skip.
Qed.

Lemma insert_sorted_hd (x y : string) (l : list string) :
  ordinal_le y x -> HdRel ordinal_le y l -> HdRel ordinal_le y (insert_sorted x l).
Proof.
  intros Hyx Hl. destruct l as [|z l]; simpl.
  - now constructor.
  - destruct (String.leb x z); constructor; [assumption|].
    now inversion Hl.
Qed.

Lemma insert_sorted_sorted (x : string) (l : list string) :
  Sorted ordinal_le l -> Sorted ordinal_le (insert_sorted x l).
Proof.
  induction 1 as [|y l Hs IH Hhd]; simpl.
  - repeat constructor.
  - destruct (String.leb x y) eqn:E.
    + constructor; [now constructor | now constructor].
    + constructor; [assumption|].
      apply insert_sorted_hd; [|assumption].
      destruct (String.leb_total x y) as [H|H]; [congruence | exact H].
Qed.

Lemma sorted_sorted (l : list string) : Sorted ordinal_le (sorted l).
Proof.
  induction l as [|x l IH]; simpl; [constructor|].
  now apply insert_sorted_sorted.
Qed.

(** ** The vocabulary *)

Lemma get_original_case_canonical (s : string) :
  canonical s -> canonical (get_original_case (lower s)).
Proof.
  unfold canonical, get_original_case. intros Hs.
  destruct (List.filter _ ALL_SKILLS) as [|v l] eqn:E.
  - exfalso.
    assert (In s (List.filter (fun x => String.eqb (lower x) (lower s)) ALL_SKILLS)) as Hin.
    { apply filter_In. split; [now rewrite <- list_elem_of_In | apply String.eqb_refl]. }
    rewrite E in Hin. destruct Hin.
  - assert (In v (List.filter (fun x => String.eqb (lower x) (lower s)) ALL_SKILLS)) as Hin
      by (rewrite E; now left).
    apply filter_In in Hin as [Hv _]. now rewrite list_elem_of_In.
Qed.

Lemma extract_skills_fold (text : string) (l : list string) (acc : gset string) (x : string) :
  x ∈ fold_left
        (fun (found_skills : gset string) skill =>
           if Re.search (skill_pattern (lower skill)) text
           then found_skills ∪ {[skill]} else found_skills) l acc ->
  x ∈ acc \/ x ∈ l.
Proof.
  revert acc. induction l as [|s l IH]; intros acc; cbn [fold_left].
  - now left.
  - intros H. apply IH in H as [H|H]; [|right; now constructor].
    destruct (Re.search (skill_pattern (lower s)) text); [|now left].
    apply elem_of_union in H as [H|H]; [now left|].
    apply elem_of_singleton in H as ->. right. now left.
Qed.

Lemma extract_skills_subset (text : string) (skill_list : option (list string))
    (x : string) :
  x ∈ extract_skills text skill_list -> x ∈ default ALL_SKILLS skill_list.
Proof.
  unfold extract_skills. cbv zeta.
  generalize (default ALL_SKILLS skill_list) as l.
  generalize (" " +:+ expand_aliases (preprocess_text text)
                        (split (preprocess_text text)) +:+ " ") as t.
  intros t l Hx. apply elem_of_elements in Hx.
  destruct (extract_skills_fold t l ∅ x Hx) as [H|H]; [|exact H].
  now apply not_elem_of_empty in H.
Qed.

Lemma extract_skills_canonical (text : string) :
  Forall canonical (extract_skills text None).
Proof.
  apply Forall_forall. intros x Hx.
  exact (extract_skills_subset text None x Hx).
Qed.

Lemma restored_canonical (X : gset string) (l : list string) :
  Forall canonical l -> X ⊆ lower_set l ->
  Forall canonical (map get_original_case (elements X)).
Proof.
  intros Hl HX. apply Forall_forall. intros x Hx.
  change (map get_original_case (elements X))
    with (get_original_case <$> elements X) in Hx.
  apply list_elem_of_fmap in Hx as [y [-> Hy]].
  apply elem_of_elements, HX, elem_of_lower_set in Hy as [s [Hs ->]].
  apply get_original_case_canonical.
  rewrite Forall_forall in Hl. now apply Hl.
Qed.

Lemma calculate_match_canonical (resume_skills jd_skills : list string) :
  Forall canonical resume_skills -> Forall canonical jd_skills ->
  let '(_, matched, missing, extra) := calculate_match resume_skills jd_skills in
  Forall canonical matched /\ Forall canonical missing /\ Forall canonical extra.
Proof.
  intros HR HJ. unfold calculate_match.
  destruct jd_skills as [|j jd_skills]; simpl negb; cbv iota.
  - auto.
  - fold (lower_set resume_skills). fold (lower_set (j :: jd_skills)).
    repeat split.
    + apply (restored_canonical _ resume_skills);
        [assumption | apply intersection_subseteq_l].
    + apply (restored_canonical _ (j :: jd_skills));
        [assumption | apply subseteq_difference_l; reflexivity].
    + apply (restored_canonical _ resume_skills);
        [assumption | apply subseteq_difference_l; reflexivity].
Qed.

(** ** analyze_resume: the three lists *)

(** C3, as the code has it.  The matched, missing and extra lists of the
    analysis result are the ones [calculate_match] returns, put in order by
    [analyze_resume]: each is sorted by code point and every name in it is
    spelled as in the vocabulary. *)
Theorem analyze_resume_lists_sorted (resume_text job_description : string) :
  let '(_, matched, missing, extra) :=
    calculate_match (extract_skills resume_text None)
                    (extract_skills job_description None) in
  let r := analyze_resume resume_text job_description in
  sorted_canonical_of matched (matched_skills r) /\
  sorted_canonical_of missing (missing_skills r) /\
  sorted_canonical_of extra (extra_skills r).
Proof.
  pose proof (calculate_match_canonical _ _ (extract_skills_canonical resume_text)
                (extract_skills_canonical job_description)) as Hc.
  unfold analyze_resume.
  destruct (calculate_match _ _) as [[[score matched] missing] extra].
  destruct Hc as (Hm & Hmi & He).
  cbn [matched_skills missing_skills extra_skills].
  repeat split; eexists; (split; [reflexivity|]);
    (split; [apply sorted_perm|]); (split; [apply sorted_sorted|]).
  - now rewrite <- (sorted_perm matched).
  - now rewrite <- (sorted_perm missing).
  - now rewrite <- (sorted_perm extra).
Qed.

(** C3, as stated, fails on [calculate_match] itself: with no
    job-description skill it returns the resume's list as it was given, and
    python before java is not in order. *)
Lemma calculate_match_extra_unsorted :
  let '(_, _, _, extra) := calculate_match ["python"; "java"] [] in
  extra = ["python"; "java"] /\ ~ Sorted ordinal_le extra.
Proof.
  cbn. split; [reflexivity|].
  intros H. inversion H as [|x l Hs Hhd]; subst.
  inversion Hhd as [|y l' Hle]; subst. discriminate Hle.
Qed.

(** ** extract_years_experience *)

Lemma fold_min_le (l : list Z) (x : Z) :
  (fold_left Z.min l x <= x)%Z /\ Forall (fun m => fold_left Z.min l x <= m)%Z l.
Proof.
  revert x. induction l as [|y l IH]; intros x; cbn [fold_left].
  - split; [lia | constructor].
  - destruct (IH (Z.min x y)) as [H1 H2]. split; [lia|].
    constructor; [lia | exact H2].
Qed.

Lemma fold_min_in (l : list Z) (x : Z) :
  fold_left Z.min l x = x \/ fold_left Z.min l x ∈ l.
Proof.
  revert x. induction l as [|y l IH]; intros x; cbn [fold_left].
  - now left.
  - destruct (IH (Z.min x y)) as [H|H].
    + rewrite H. destruct (Z.min_spec x y) as [[_ ->]|[_ ->]];
        [now left | right; now left].
    + right. now right.
Qed.

Lemma min_list_spec (l : list Z) :
  match min_list l with
  | None => l = []
  | Some n => n ∈ l /\ forall m, m ∈ l -> (n <= m)%Z
  end.
Proof.
  destruct l as [|x l]; cbn [min_list]; [reflexivity|].
  destruct (fold_min_le l x) as [H1 H2]. split.
  - destruct (fold_min_in l x) as [->|H]; [now left | now right].
  - intros m Hm. apply list_elem_of_In in Hm. destruct Hm as [<-|Hm]; [exact H1|].
    rewrite Forall_forall in H2. apply H2. now apply list_elem_of_In.
Qed.

Lemma elem_of_captured_years (m : Z) (text_lower : string) :
  m ∈ captured_years text_lower <->
  exists pattern g,
    pattern ∈ year_patterns /\ g ∈ Re.findall_group pattern text_lower /\
    g <> "" /\ m = int g.
Proof.
  unfold captured_years. rewrite list_elem_of_In, in_flat_map. split.
  - intros [p [Hp Hm]]. apply in_map_iff in Hm as [g [<- Hg]].
    apply filter_In in Hg as [Hg Hne]. exists p, g.
    rewrite !list_elem_of_In. repeat split; auto.
    intros ->. discriminate Hne.
  - intros (p & g & Hp & Hg & Hne & ->). exists p.
    rewrite list_elem_of_In in Hp. rewrite list_elem_of_In in Hg. split; [exact Hp|].
    apply in_map_iff. exists g. split; [reflexivity|].
    apply filter_In. split; [exact Hg|]. now destruct g.
Qed.

(** C4. The result is the least of the integers that the three patterns
    capture in the lower-cased text, over all their matches, and it is
    absent exactly when nothing is captured; a range from 3 to 5 years next
    to a mention of 7+ years gives 3. *)
Theorem extract_years_experience_minimum (text : string) :
  let captured (m : Z) :=
    exists pattern g,
      pattern ∈ year_patterns /\ g ∈ Re.findall_group pattern (lower text) /\
      g <> "" /\ m = int g in
  match extract_years_experience text with
  | Some n => captured n /\ forall m, captured m -> (n <= m)%Z
  | None => forall m, ~ captured m
  end /\
  extract_years_experience "3-5 years and 7+ years" = Some 3%Z /\
  extract_years_experience "7+ years of experience, 3-5 years in Python" = Some 3%Z.
Proof.
  split; [|split; vm_compute; reflexivity].
  unfold extract_years_experience. cbv zeta.
  pose proof (min_list_spec (captured_years (lower text))) as H.
  destruct (min_list (captured_years (lower text))) as [n|].
  - destruct H as [Hn Hmin]. split.
    + now apply elem_of_captured_years.
    + intros m Hm. apply Hmin. now apply elem_of_captured_years.
  - intros m Hm. apply elem_of_captured_years in Hm. rewrite H in Hm.
    now apply not_elem_of_nil in Hm.
Qed.

(** ** detect_experience_level *)

Lemma elem_of_detect_in (table : list (string * list string)) (level text_lower : string) :
  level ∈ detect_in table text_lower <-> mentions table level text_lower.
Proof.
  unfold detect_in, mentions. rewrite list_elem_of_In, in_map_iff. split.
  - intros [[lvl kws] [<- H]]. apply filter_In in H as [Hin Hex].
    apply existsb_exists in Hex as [k [Hk Hc]]. exists kws, k.
    rewrite !list_elem_of_In. repeat split; auto. now apply contains_occurs.
  - intros (kws & k & Ht & Hk & Hc). exists (level, kws). split; [reflexivity|].
    apply filter_In. rewrite list_elem_of_In in Ht. split; [exact Ht|].
    apply existsb_exists. exists k. rewrite list_elem_of_In in Hk.
    split; [exact Hk|]. now apply contains_occurs.
Qed.

Lemma mentions_level (level text_lower : string) :
  mentions EXPERIENCE_LEVELS level text_lower ->
  level = "entry" \/ level = "mid" \/ level = "senior".
Proof.
  intros (kws & k & Ht & _). unfold EXPERIENCE_LEVELS in Ht.
  apply list_elem_of_In in Ht. cbn [In] in Ht.
  destruct Ht as [E|[E|[E|[]]]]; inversion E; auto.
Qed.

(** C5. The level is senior when a senior keyword occurs in the lower-cased
    text; otherwise mid when a mid keyword occurs; otherwise entry when an
    entry keyword occurs; otherwise it is not specified. *)
Theorem detect_experience_level_priority (text : string) :
  let has level := mentions EXPERIENCE_LEVELS level (lower text) in
  let result := detect_experience_level text in
  (has "senior" -> result = "senior") /\
  (~ has "senior" -> has "mid" -> result = "mid") /\
  (~ has "senior" -> ~ has "mid" -> has "entry" -> result = "entry") /\
  (~ has "senior" -> ~ has "mid" -> ~ has "entry" -> result = "not specified").
Proof.
  cbv zeta. unfold detect_experience_level. cbv zeta.
  set (detected := detect_in EXPERIENCE_LEVELS (lower text)).
  assert (Hd : forall level, level ∈ detected <->
                mentions EXPERIENCE_LEVELS level (lower text))
    by (intros level; apply elem_of_detect_in).
  clearbody detected.
  assert (Hne : forall level, level ∈ detected -> nonempty detected = true)
    by (intros level H; destruct detected; [now apply not_elem_of_nil in H | reflexivity]).
  repeat split.
  - intros H. apply Hd in H. rewrite (Hne _ H). cbn [negb].
    now rewrite bool_decide_eq_true_2.
  - intros Hs Hm. apply Hd in Hm. rewrite (Hne _ Hm). cbn [negb].
    rewrite bool_decide_eq_false_2 by (now rewrite Hd).
    now rewrite bool_decide_eq_true_2.
  - intros Hs Hm He. apply Hd in He. rewrite (Hne _ He). cbn [negb].
    rewrite !bool_decide_eq_false_2 by (now rewrite Hd). reflexivity.
  - intros Hs Hm He. destruct detected as [|level l]; [reflexivity|].
    exfalso. assert (H : mentions EXPERIENCE_LEVELS level (lower text))
      by (apply Hd; now left).
    destruct (mentions_level _ _ H) as [->|[->| ->]]; auto.
Qed.

(** ** The action-verb rule *)

Lemma total_len_filter (p : string -> bool) (table : list (string * list string)) :
  total_len (map (fun entry => (fst entry, List.filter p (snd entry))) table)
  = length (List.filter p (flat_map snd table)).
Proof.
  induction table as [|[c vs] table IH]; cbn [map flat_map total_len fold_right fst snd].
  - reflexivity.
  - fold (total_len (map (fun entry => (fst entry, List.filter p (snd entry))) table)).
    rewrite IH, List.filter_app, length_app. reflexivity.
Qed.

Lemma check_action_verbs_total (resume_text : string) :
  snd (check_action_verbs resume_text) = length (verbs_present resume_text).
Proof.
  unfold check_action_verbs, verbs_present, ALL_ACTION_VERBS. cbv zeta. cbn [snd].
  apply total_len_filter.
Qed.

Lemma filter_nonempty_existsb (p : string -> bool) (l : list string) :
  nonempty (List.filter p l) = existsb p l.
Proof.
  induction l as [|x l IH]; cbn [List.filter existsb]; [reflexivity|].
  destruct (p x); [reflexivity | exact IH].
Qed.

Lemma check_action_verbs_weak (resume_text : string) :
  map fst (List.filter (fun entry => negb (nonempty (snd entry)))
                       (fst (check_action_verbs resume_text)))
  = weak_categories resume_text.
Proof.
  unfold check_action_verbs, weak_categories. cbv zeta. cbn [fst].
  induction ACTION_VERBS as [|[c vs] table IH]; [reflexivity|].
  cbn [map List.filter fst snd]. rewrite filter_nonempty_existsb.
  destruct (existsb _ vs); cbn [negb map fst]; now rewrite IH.
Qed.

Lemma filter_length_le {A} (p : A -> bool) (l : list A) :
  length (List.filter p l) <= length l.
Proof.
  induction l as [|x l IH]; cbn [List.filter length]; [lia|].
  destruct (p x); cbn [length]; lia.
Qed.

(** C6, as the code has it.  The rule counts the verbs of the list that
    occur in the lower-cased text, each of them once however often it
    occurs (35 at most): under 5 it gives the warning, from 5 to 9 the info
    item that names the first two categories without any verb when there is
    such a category, and from 10 on nothing. *)
Theorem action_verb_feedback_distinct (resume_text : string) :
  let n := length (verbs_present resume_text) in
  let weak := weak_categories resume_text in
  let feedback := action_verb_feedback resume_text in
  snd (check_action_verbs resume_text) = n /\ n <= 35 /\
  (n < 5 -> map type feedback = ["warning"] /\ map category feedback = ["Action Verbs"]) /\
  (5 <= n < 10 -> weak <> [] ->
     feedback =
       [Suggestion "info" "Action Verbs"
          ("Consider adding more " +:+ join ", " (slice_to 2 weak)
           +:+ " action verbs to showcase different aspects of your experience.")]) /\
  (5 <= n < 10 -> weak = [] -> feedback = []) /\
  (10 <= n -> feedback = []).
Proof.
  cbv zeta.
  pose proof (check_action_verbs_total resume_text) as Ht.
  pose proof (check_action_verbs_weak resume_text) as Hw.
  unfold action_verb_feedback.
  destruct (check_action_verbs resume_text) as [verb_categories total_verbs].
  cbn [fst snd] in Ht, Hw. rewrite Hw. rewrite <- Ht.
  split; [reflexivity|]. split.
  { rewrite Ht. unfold verbs_present.
    etransitivity; [apply filter_length_le | reflexivity]. }
  repeat split.
  - destruct (Nat.ltb_spec total_verbs 5); [reflexivity | lia].
  - destruct (Nat.ltb_spec total_verbs 5); [reflexivity | lia].
  - intros [H5 H10] Hweak.
    destruct (Nat.ltb_spec total_verbs 5); [lia|].
    destruct (Nat.ltb_spec total_verbs 10); [|lia].
    destruct (weak_categories resume_text); [congruence | reflexivity].
  - intros [H5 H10] Hweak.
    destruct (Nat.ltb_spec total_verbs 5); [lia|].
    destruct (Nat.ltb_spec total_verbs 10); [|lia].
    now rewrite Hweak.
  - intros H10.
    destruct (Nat.ltb_spec total_verbs 5); [lia|].
    destruct (Nat.ltb_spec total_verbs 10); [lia | reflexivity].
Qed.

(** C6, as stated, fails: a text where one verb occurs five times has five
    occurrences, which would call for the info item; the code counts one
    verb and gives the warning. *)
Lemma action_verbs_counted_once :
  spec_verb_occurrences "led led led led led" = 5 /\
  snd (check_action_verbs "led led led led led") = 1 /\
  map type (action_verb_feedback "led led led led led") = ["warning"].
Proof. repeat split; vm_compute; reflexivity. Qed.

(** ** The education rule *)

(** The rule fires exactly when the job description asks for a master's
    degree and the resume shows neither a master's degree nor a doctorate. *)
Lemma education_feedback_fires (a : analysis_results) :
  let jd := default [] (jd_education a) in
  let resume := default [] (resume_education a) in
  education_feedback a <> [] <->
  ("masters" ∈ jd) /\ ("masters" ∉ resume) /\ ("phd" ∉ resume).
Proof.
  cbv zeta. unfold education_feedback, in_list. cbv zeta.
  repeat case_bool_decide; cbn [orb andb negb]; split;
    try congruence; try tauto; intros; try discriminate; tauto.
Qed.

(** C7 at the input that breaks it: the job description mentions a
    doctorate only, the resume has no degree, and no education item is
    emitted, by the rule or by the whole cascade. *)
Lemma education_feedback_phd_only :
  education_feedback jd_phd_only = [] /\
  Forall (fun s => category s <> "Education") (generate_suggestions "" jd_phd_only).
Proof.
  split; [vm_compute; reflexivity|].
  vm_compute. repeat constructor; discriminate.
Qed.

(** ** Aliases and adjacent mentions *)

(** C8. In the text about js the token js is an alias of javascript: the
    canonical form is appended to the normalized text, which keeps the
    token, and the extracted skills include javascript. *)
Theorem extract_skills_alias_js :
  let text_processed := preprocess_text "I use js daily" in
  text_processed = "i use js daily" /\
  normalize_skill "js" = "javascript" /\
  expand_aliases text_processed (split text_processed)
    = "i use js daily javascript" /\
  "javascript" ∈ extract_skills "I use js daily" None.
Proof.
  cbv zeta. repeat split; try (vm_compute; reflexivity).
  assert (extract_skills "I use js daily" None = ["javascript"]) as ->
    by (vm_compute; reflexivity).
  now left.
Qed.

(** C10. A skill written twice with one space between is counted once: the
    first match takes the blank that the second would need before it.  So
    the skill, missing from the resume, is not a high-priority one, as it is
    when a word stands between the two mentions. *)
Theorem adjacent_mentions_counted_once :
  count_occurrences "python" "python python" = 2 /\
  get_skill_frequency "python python" ["python"] !! "python" = Some 1 /\
  get_skill_frequency "python and python" ["python"] !! "python" = Some 2 /\
  missing_skills (analyze_resume "" "python python") = Some ["python"] /\
  high_priority_missing (analyze_resume "" "python python") = Some [] /\
  high_priority_missing (analyze_resume "" "python and python") = Some ["python"].
Proof. repeat split; vm_compute; reflexivity. Qed.

(** ** generate_suggestions: the cascade *)

Ltac split_cases :=
  repeat match goal with
         | |- context [if ?c then _ else _] => destruct c
         end.

Ltac other_categories :=
  split_cases; repeat (apply Forall_app; split);
  repeat constructor; unfold other_category; cbn [category]; discriminate.

Lemma critical_gap_other a : Forall other_category (critical_gap_feedback a).
Proof. unfold critical_gap_feedback. cbv zeta. other_categories. Qed.

Lemma category_other a : Forall other_category (category_feedback a).
Proof. unfold category_feedback. cbv zeta. other_categories. Qed.

Lemma experience_other a : Forall other_category (experience_feedback a).
Proof.
  unfold experience_feedback. cbv zeta.
  destruct (jd_years_required a); other_categories.
Qed.

Lemma action_verb_other text : Forall other_category (action_verb_feedback text).
Proof.
  unfold action_verb_feedback. destruct (check_action_verbs text).
  cbv zeta. other_categories.
Qed.

Lemma metrics_other text : Forall other_category (metrics_feedback text).
Proof.
  unfold metrics_feedback. destruct (check_quantifiable_achievements text).
  other_categories.
Qed.

Lemma length_other text : Forall other_category (length_feedback text).
Proof.
  unfold length_feedback. destruct (check_resume_length text). other_categories.
Qed.

Lemma sections_other text : Forall other_category (sections_feedback text).
Proof.
  unfold sections_feedback. destruct (check_sections text). cbv zeta.
  other_categories.
Qed.

Lemma contact_other text : Forall other_category (contact_feedback text).
Proof. unfold contact_feedback. cbv zeta. other_categories. Qed.

Lemma context_other text a : Forall other_category (context_feedback text a).
Proof.
  unfold context_feedback. cbv zeta.
  destruct (nonempty _); [|constructor].
  destruct (check_keyword_stuffing _ _). other_categories.
Qed.

Lemma education_other a : Forall other_category (education_feedback a).
Proof. unfold education_feedback. cbv zeta. other_categories. Qed.

(** The score block gives one item, of the band the score falls in. *)
Lemma score_feedback_band (a : analysis_results) :
  let score := default 0%Q (match_score a) in
  exists band,
    score_feedback a = [band] /\ category band = "Match Score" /\
    ((80 <= score)%Q -> type band = "success") /\
    ((60 <= score)%Q -> (score < 80)%Q -> type band = "info") /\
    ((40 <= score)%Q -> (score < 60)%Q -> type band = "warning") /\
    ((score < 40)%Q -> type band = "danger").
Proof.
  cbv zeta. unfold score_feedback. cbv zeta.
  set (score := default 0%Q (match_score a)).
  destruct (Qle_bool 80 score) eqn:E80;
    [|destruct (Qle_bool 60 score) eqn:E60;
      [|destruct (Qle_bool 40 score) eqn:E40]];
    eexists; (split; [reflexivity|]); (split; [reflexivity|]);
    cbn [type];
    repeat match goal with
           | H : Qle_bool _ _ = true |- _ => apply Qle_bool_iff in H
           | H : Qle_bool _ _ = false |- _ =>
               apply not_true_iff_false in H; rewrite Qle_bool_iff in H;
               apply Qnot_le_lt in H
           end;
    repeat split; intros; try reflexivity; exfalso; lra.
Qed.

(** C9. Whatever the resume text and the analysis result, the suggestions
    start with the one item of the score band (success from 80, info from
    60, warning from 40, danger below), no later item is a score-band item,
    the ATS tip is among the later items, and so there are at least two. *)
Theorem generate_suggestions_band_and_ats (resume_text : string) (a : analysis_results) :
  let score := default 0%Q (match_score a) in
  exists band rest,
    generate_suggestions resume_text a = band :: rest /\
    category band = "Match Score" /\
    ((80 <= score)%Q -> type band = "success") /\
    ((60 <= score)%Q -> (score < 80)%Q -> type band = "info") /\
    ((40 <= score)%Q -> (score < 60)%Q -> type band = "warning") /\
    ((score < 40)%Q -> type band = "danger") /\
    Forall (fun s => category s <> "Match Score") rest /\
    ats_tip ∈ rest /\
    2 <= length (generate_suggestions resume_text a).
Proof.
  cbv zeta. destruct (score_feedback_band a) as (band & Hb & Hc & H80 & H60 & H40 & H0).
  unfold generate_suggestions. rewrite Hb. cbn [app].
  eexists band, _. split; [reflexivity|].
  repeat (split; [assumption|]).
  split; [|split].
  - apply Forall_app; split; [apply critical_gap_other|].
    apply Forall_app; split; [apply category_other|].
    apply Forall_app; split; [apply experience_other|].
    apply Forall_app; split; [apply action_verb_other|].
    apply Forall_app; split; [apply metrics_other|].
    apply Forall_app; split; [apply length_other|].
    apply Forall_app; split; [apply sections_other|].
    apply Forall_app; split; [apply contact_other|].
    apply Forall_app; split; [apply context_other|].
    constructor; [discriminate | apply education_other].
  - rewrite !elem_of_app. do 9 right. now left.
  - cbn [length]. rewrite !length_app. cbn [length]. lia.
Qed.

(** ** The boundary pattern of the skill extractor *)

Section SkillPattern.
Import Re.

Lemma substring_all (s : string) : String.substring 0 (String.length s) s = s.
Proof. induction s as [|a s IH]; cbn; [reflexivity | now rewrite IH]. Qed.

Lemma drop_append (k post : string) : drop (String.length k) (k +:+ post) = post.
Proof.
  unfold drop. induction k as [|a k IH].
  - rewrite append_empty. cbn [String.length]. rewrite Nat.sub_0_r. apply substring_all.
  - rewrite append_cons. cbn [String.length String.substring]. exact IH.
Qed.

Lemma append_inj_l (k a b : string) : k +:+ a = k +:+ b -> a = b.
Proof.
  induction k as [|c k IH]; [now rewrite !append_empty|].
  rewrite !append_cons. intros H. injection H as H. auto.
Qed.

Section Continuation.
Context {A : Type} (f : mstate -> A).

Lemma run_right (st : mstate) :
  is_Some (run (Seq (Alt Eol (Cls is_boundary)) Eps) st (fun st' => Some (f st')))
  <-> right_ok (rest st).
Proof.
  unfold right_ok. cbn [run]. destruct (rest st) as [|c post].
  - split; [intros _; now left | intros _; eexists; reflexivity].
  - destruct post as [|c' post'].
    + destruct (code c =? 10)%N eqn:E.
      * split; [|intros _; eexists; reflexivity].
        intros _. right. exists c, "". split; [reflexivity|].
        apply N.eqb_eq in E. unfold is_boundary, is_space, in_range. rewrite E. reflexivity.
      * destruct (is_boundary c) eqn:Eb.
        -- split; [|intros _; eexists; reflexivity].
           intros _. right. now exists c, "".
        -- split; [intros [x Hx]; discriminate|].
           intros [H|(c0 & p0 & H & Hb)]; [discriminate|].
           congruence.
    + destruct (is_boundary c) eqn:Eb.
      * split; [|intros _; eexists; reflexivity].
        intros _. right. now exists c, (String c' post').
      * split; [intros [x Hx]; discriminate|].
        intros [H|(c0 & p0 & H & Hb)]; [discriminate|].
        congruence.
Qed.

Lemma run_tail (k : string) (st : mstate) :
  is_Some (run (Seq (Lit k) (Seq (Alt Eol (Cls is_boundary)) Eps)) st
               (fun st' => Some (f st')))
  <-> exists post, rest st = k +:+ post /\ right_ok post.
Proof.
  cbn [run]. destruct (String.prefix k (rest st)) eqn:E.
  - apply prefix_occurs in E as [post E]. rewrite E, drop_append.
    pose proof (run_right (MState (pos st + String.length k) post (cap st))) as H.
    cbn [run rest] in H. rewrite H. split.
    + intros Hr. now exists post.
    + intros (post' & Hp & Hr). apply append_inj_l in Hp. now subst.
  - split; [intros [x Hx]; discriminate|].
    intros (post & Hp & _).
    assert (String.prefix k (rest st) = true) by (apply prefix_occurs; now exists post).
    congruence.
Qed.

Lemma match_at_skill_pattern (k : string) (n : nat) (s : string) :
  is_Some (run (skill_pattern k) (MState n s None) (fun st' => Some (f st')))
  <-> (n = 0 /\ exists post, s = k +:+ post /\ right_ok post) \/
      (exists c s' post, s = String c s' /\ is_boundary c = true /\
                         s' = k +:+ post /\ right_ok post).
Proof.
  unfold skill_pattern, Cat. cbn [fold_right].
  change (run (Seq ?a ?b) ?st ?K) with (run a st (fun st' => run b st' K)).
  cbn [run pos rest cap].
  destruct n as [|n]; cbn [Nat.eqb].
  - pose proof (run_tail k (MState 0 s None)) as H0. cbn [run pos rest cap] in H0.
    destruct (if String.prefix k s then _ else None) as [x|] eqn:E0.
    + split; [|intros _; now exists x].
      intros _. left. split; [reflexivity|]. apply H0. now exists x.
    + destruct s as [|c s'].
      * split; [intros [x Hx]; discriminate|].
        intros [[_ H]|(c & s' & post & H & _)]; [|discriminate].
        apply H0 in H as [x Hx]. discriminate.
      * pose proof (run_tail k (MState 1 s' None)) as H1. cbn [run pos rest cap] in H1.
        destruct (is_boundary c) eqn:Eb.
        -- rewrite H1. split.
           ++ intros (post & Hp & Hr). right. now exists c, s', post.
           ++ intros [[_ H]|(c0 & s0 & post & H & _ & Hp & Hr)].
              ** apply H0 in H as [x Hx]. discriminate.
              ** simplify_eq. now exists post.
        -- split; [intros [x Hx]; discriminate|].
           intros [[_ H]|(c0 & s0 & post & H & Hb & _)].
           ++ apply H0 in H as [x Hx]. discriminate.
           ++ congruence.
  - destruct s as [|c s'].
    + split; [intros [x Hx]; discriminate|].
      intros [[H _]|(c & s' & post & H & _)]; discriminate.
    + pose proof (run_tail k (MState (S (S n)) s' None)) as H1.
      cbn [run pos rest cap] in H1.
      destruct (is_boundary c) eqn:Eb.
      * rewrite H1. split.
        -- intros (post & Hp & Hr). right. now exists c, s', post.
        -- intros [[H _]|(c0 & s0 & post & H & _ & Hp & Hr)]; [discriminate|].
           simplify_eq. now exists post.
      * split; [intros [x Hx]; discriminate|].
        intros [[H _]|(c0 & s0 & post & H & Hb & _)]; [discriminate|].
        congruence.
Qed.
End Continuation.

Lemma append_assoc (a b c : string) : (a +:+ b) +:+ c = a +:+ b +:+ c.
Proof.
  induction a as [|x a IH]; [reflexivity|]. rewrite !append_cons. now rewrite IH.
Qed.

Lemma search_from_skill_pattern (k : string) (n : nat) (s : string) :
  search_from (skill_pattern k) n s = true
  <-> (n = 0 /\ exists post, s = k +:+ post /\ right_ok post) \/
      (exists pre c post, s = pre +:+ String c (k +:+ post) /\
                          is_boundary c = true /\ right_ok post).
Proof.
  revert n. induction s as [|a s IH]; intros n.
  - cbn [search_from]. unfold match_at.
    pose proof (match_at_skill_pattern
                  (fun st => RMatch (take (pos st - n) "")
                                    (match cap st with Some g => g | None => "" end))
                  k n "") as H.
    destruct (run (skill_pattern k) _ _) as [m|].
    + split; [|reflexivity]. intros _.
      destruct (proj1 H (mk_is_Some _ _ eq_refl)) as [H0|(c & s' & post & E & _)];
        [now left | discriminate].
    + split; [discriminate|].
      intros [H0|(pre & c & post & E & _)].
      * destruct (proj2 H (or_introl H0)) as [x Hx]. discriminate.
      * destruct pre; discriminate.
  - cbn [search_from]. unfold match_at.
    pose proof (match_at_skill_pattern
                  (fun st => RMatch (take (pos st - n) (String a s))
                                    (match cap st with Some g => g | None => "" end))
                  k n (String a s)) as H.
    destruct (run (skill_pattern k) _ _) as [m|].
    + split; [|reflexivity]. intros _.
      destruct (proj1 H (mk_is_Some _ _ eq_refl)) as [H0|(c & s' & post & E & Hb & Hp & Hr)];
        [now left|].
      right. exists "", c, post. rewrite append_empty. now subst.
    + rewrite IH. split.
      * intros [[Hn _]|(pre & c & post & E & Hb & Hr)]; [discriminate|].
        right. exists (String a pre), c, post. rewrite append_cons. now subst.
      * intros [H0|(pre & c & post & E & Hb & Hr)].
        -- destruct (proj2 H (or_introl H0)) as [x Hx]. discriminate.
        -- destruct pre as [|a' pre].
           ++ rewrite append_empty in E. simplify_eq.
              destruct (proj2 H (or_intror (ex_intro _ c (ex_intro _ _ (ex_intro _ post
                          (conj eq_refl (conj Hb (conj eq_refl Hr)))))))) as [x Hx].
              discriminate.
           ++ rewrite append_cons in E. simplify_eq.
              right. now exists pre, c, post.
Qed.

End SkillPattern.

(** The boundary pattern finds a skill exactly where the skill stands between
    two boundaries, the ends of the text counting as boundaries. *)
Lemma skill_pattern_search (k s : string) :
  Re.search (skill_pattern k) s = true <-> flanked k s.
Proof.
  unfold Re.search. rewrite search_from_skill_pattern. unfold flanked, left_ok. split.
  - intros [[_ (post & E & Hr)]|(pre & c & post & E & Hb & Hr)].
    + exists "", post. rewrite append_empty. auto.
    + exists (pre +:+ String c ""), post. rewrite append_assoc, append_cons, append_empty.
      split; [exact E|]. split; [right; now exists pre, c | exact Hr].
  - intros (pre & post & E & [->|(pre' & c & -> & Hb)] & Hr).
    + left. split; [reflexivity|]. exists post. now rewrite append_empty in E.
    + right. exists pre', c, post.
      rewrite append_assoc, append_cons, append_empty in E. auto.
Qed.

(** ** Normalization and extraction *)

Lemma chars_all_append (p : ascii -> bool) (a b : string) :
  chars_all p (a +:+ b) = chars_all p a && chars_all p b.
Proof.
  induction a as [|c a IH]; [reflexivity|].
  rewrite append_cons. cbn [chars_all]. now rewrite IH, andb_assoc.
Qed.

Lemma chars_all_impl (p q : ascii -> bool) (s : string) :
  (forall c, p c = true -> q c = true) ->
  chars_all p s = true -> chars_all q s = true.
Proof.
  intros Hpq. induction s as [|c s IH]; [reflexivity|]. cbn [chars_all].
  rewrite !andb_true_iff. intros [H1 H2]. auto.
Qed.

Lemma chars_all_lower (q : ascii -> bool) (s : string) :
  chars_all q (lower s) = chars_all (fun c => q (lower_char c)) s.
Proof. induction s as [|c s IH]; [reflexivity|]. cbn. now rewrite IH. Qed.

Lemma chars_all_rev_string (q : ascii -> bool) (acc s : string) :
  chars_all q (rev_string acc s) = chars_all q acc && chars_all q s.
Proof.
  revert acc. induction s as [|c s IH]; intros acc; cbn [rev_string chars_all].
  - now rewrite andb_true_r.
  - rewrite IH. cbn [chars_all]. destruct (q c), (chars_all q acc), (chars_all q s); reflexivity.
Qed.

Lemma chars_all_split_from (q : ascii -> bool) (cur s : string) :
  chars_all q cur = true ->
  chars_all (fun c => is_space c || q c) s = true ->
  Forall (fun w => chars_all q w = true) (split_from cur s).
Proof.
  revert cur. induction s as [|c s IH]; intros cur Hcur Hs; cbn [split_from].
  - destruct (is_empty cur); constructor; [|constructor].
    now rewrite chars_all_rev_string, Hcur.
  - cbn [chars_all] in Hs. apply andb_true_iff in Hs as [Hc Hs].
    destruct (is_space c) eqn:Esp.
    + destruct (is_empty cur).
      * now apply IH.
      * constructor; [now rewrite chars_all_rev_string, Hcur | now apply IH].
    + apply IH; [|exact Hs]. cbn [chars_all]. cbn [orb] in Hc. now rewrite Hc, Hcur.
Qed.

Lemma chars_all_join (q : ascii -> bool) (sep : string) (l : list string) :
  chars_all q sep = true ->
  Forall (fun w => chars_all q w = true) l ->
  chars_all q (join sep l) = true.
Proof.
  intros Hsep. induction 1 as [|w l Hw Hl IH]; [reflexivity|].
  cbn [join]. destruct l as [|w' l]; [exact Hw|].
  rewrite !chars_all_append, Hw, Hsep. exact IH.
Qed.

Lemma chars_all_lstrip (q : ascii -> bool) (s : string) :
  chars_all q s = true -> chars_all q (lstrip s) = true.
Proof.
  induction s as [|c s IH]; [reflexivity|]. cbn [lstrip chars_all].
  intros H. destruct (is_space c); [|exact H].
  apply andb_true_iff in H as [_ H]. auto.
Qed.

Lemma chars_all_rstrip (q : ascii -> bool) (s : string) :
  chars_all q s = true -> chars_all q (rstrip s) = true.
Proof.
  induction s as [|c s IH]; [reflexivity|]. cbn [rstrip chars_all].
  intros H. apply andb_true_iff in H as [Hc H].
  destruct (is_space c && is_empty (rstrip s)); [reflexivity|].
  cbn [chars_all]. now rewrite Hc, IH.
Qed.

Lemma chars_all_strip (q : ascii -> bool) (s : string) :
  chars_all q s = true -> chars_all q (strip s) = true.
Proof. intros H. unfold strip. now apply chars_all_rstrip, chars_all_lstrip. Qed.

Section SubClass.
Import Re.

Lemma take_one (a : ascii) (s : string) : take 1 (String a s) = String a "".
Proof. unfold take. cbn [String.substring]. now destruct s. Qed.

(** [re.sub] of a one-character class replaces, one by one, the characters
    of the class. *)
Lemma sub_from_class (p : ascii -> bool) (repl : string) (n : nat) (s : string) :
  sub_from (Cls p) repl n 0 s =
  match s with
  | EmptyString => ""
  | String a s' =>
      (if p a then repl else String a "") +:+ sub_from (Cls p) repl (S n) 0 s'
  end.
Proof.
  destruct s as [|a s']; [reflexivity|].
  cbn [sub_from]. unfold match_at. cbn [run rest pos cap].
  destruct (p a); [|reflexivity].
  cbn [whole]. replace (S n - n) with 1 by lia. rewrite take_one. reflexivity.
Qed.

Lemma chars_all_sub_class (p q r : ascii -> bool) (repl s : string) :
  chars_all q repl = true ->
  (forall c, r c = true -> p c = false -> q c = true) ->
  chars_all r s = true ->
  chars_all q (sub (Cls p) repl s) = true.
Proof.
  intros Hrepl Hq. unfold sub. generalize 0 at 1 as n.
  induction s as [|a s IH]; intros n Hs; rewrite sub_from_class; [reflexivity|].
  cbn [chars_all] in Hs. apply andb_true_iff in Hs as [Ha Hs].
  rewrite chars_all_append, (IH (S n) Hs), andb_true_r.
  destruct (p a) eqn:Ep; [exact Hrepl|].
  cbn [chars_all]. now rewrite (Hq a Ha Ep).
Qed.
End SubClass.

Lemma lower_char_not_upper (c : ascii) : is_upper (lower_char c) = false.
Proof. destruct c as [[] [] [] [] [] [] [] []]; reflexivity. Qed.

Lemma norm_char_kept (c : ascii) :
  is_upper c = false -> is_separator c = false -> is_stripped c = false ->
  is_space c || norm_char c = true.
Proof. destruct c as [[] [] [] [] [] [] [] []]; vm_compute; congruence. Qed.

(** Every character of a normalized text is a blank, a lower-case letter, a
    digit, an underscore, a dot, a plus or a hash. *)
Lemma preprocess_text_chars (text : string) :
  chars_all norm_char (preprocess_text text) = true.
Proof.
  unfold preprocess_text. cbv zeta.
  apply chars_all_join; [reflexivity|].
  apply chars_all_split_from; [reflexivity|].
  apply (chars_all_sub_class _ _
           (fun c => (code c =? 32)%N || negb (is_upper c) && negb (is_separator c)));
    [reflexivity | |].
  - intros c Hc Hs. apply orb_true_iff in Hc as [Hc|Hc].
    + apply N.eqb_eq in Hc. unfold code in Hc.
      rewrite <- (ascii_N_embedding c), Hc. reflexivity.
    + apply andb_true_iff in Hc as [Hu Hsep].
      apply negb_true_iff in Hu, Hsep. now apply norm_char_kept.
  - apply (chars_all_sub_class _ _ (fun c => negb (is_upper c)));
      [reflexivity | |].
    + intros c Hu Hsep. now rewrite Hu, Hsep, orb_true_r.
    + rewrite chars_all_lower. clear. induction text as [|c s IH]; [reflexivity|].
      cbn [chars_all]. now rewrite lower_char_not_upper, IH.
Qed.

Lemma find_skills_fold (t : string) (l : list string) (acc : gset string) (x : string) :
  x ∈ fold_left
        (fun (found_skills : gset string) skill =>
           if Re.search (skill_pattern (lower skill)) t
           then found_skills ∪ {[skill]} else found_skills) l acc
  <-> x ∈ acc \/ (x ∈ l /\ Re.search (skill_pattern (lower x)) t = true).
Proof.
  revert acc. induction l as [|s l IH]; intros acc; cbn [fold_left].
  - split; [now left | intros [H|[H _]]; [exact H | now apply not_elem_of_nil in H]].
  - rewrite IH. destruct (Re.search (skill_pattern (lower s)) t) eqn:E.
    + rewrite elem_of_union, elem_of_singleton, elem_of_cons. split.
      * intros [[H| ->]|[H1 H2]]; auto.
      * intros [H|[[->|H1] H2]]; auto.
    + rewrite elem_of_cons. split.
      * intros [H|[H1 H2]]; auto.
      * intros [H|[[->|H1] H2]]; auto. congruence.
Qed.

(** A skill is extracted exactly when it is in the list searched and its
    lower-case form stands between boundaries in the searched text; no skill
    is returned twice. *)
Lemma elem_of_extract_skills (text : string) (skill_list : option (list string)) :
  NoDup (extract_skills text skill_list) /\
  forall skill,
    skill ∈ extract_skills text skill_list <->
    skill ∈ default ALL_SKILLS skill_list /\
    flanked (lower skill) (searched_text text).
Proof.
  unfold extract_skills, searched_text. cbv zeta.
  generalize (default ALL_SKILLS skill_list) as l.
  generalize (" " +:+ expand_aliases (preprocess_text text)
                        (split (preprocess_text text)) +:+ " ") as t.
  intros t l. split; [apply NoDup_elements|].
  intros skill. rewrite elem_of_elements, find_skills_fold, skill_pattern_search.
  split; [intros [H|H]; [now apply not_elem_of_empty in H | exact H] | now right].
Qed.

Lemma norm_char_not_hyphen (c : ascii) : norm_char c = true -> not_hyphen c = true.
Proof. destruct c as [[] [] [] [] [] [] [] []]; vm_compute; congruence. Qed.

Lemma lower_char_hyphen (c : ascii) : not_hyphen (lower_char c) = not_hyphen c.
Proof. destruct c as [[] [] [] [] [] [] [] []]; reflexivity. Qed.

Lemma alias_not_hyphen (k v : string) :
  SKILL_ALIASES !! k = Some v -> chars_all not_hyphen v = true.
Proof.
  unfold SKILL_ALIASES. intros H. apply elem_of_list_to_map_2 in H.
  apply list_elem_of_In in H. cbn [In] in H.
  repeat (destruct H as [H|H]; [inversion H; reflexivity|]). destruct H.
Qed.

Lemma normalize_skill_not_hyphen (word : string) :
  chars_all not_hyphen word = true ->
  chars_all not_hyphen (normalize_skill word) = true.
Proof.
  intros Hw. unfold normalize_skill. cbv zeta.
  destruct (SKILL_ALIASES !! strip (lower word)) as [v|] eqn:E; cbn [default].
  - exact (alias_not_hyphen _ _ E).
  - apply chars_all_strip. rewrite chars_all_lower.
    revert Hw. apply chars_all_impl. intros c Hc. now rewrite lower_char_hyphen.
Qed.

Lemma expand_aliases_not_hyphen (text_processed : string) (words : list string) :
  chars_all not_hyphen text_processed = true ->
  Forall (fun w => chars_all not_hyphen w = true) words ->
  chars_all not_hyphen (expand_aliases text_processed words) = true.
Proof.
  intros Ht Hw. revert text_processed Ht. unfold expand_aliases.
  induction Hw as [|w words Hw Hws IH]; intros tp Ht; cbn [fold_left]; [exact Ht|].
  apply IH. destruct (negb _); [|exact Ht].
  rewrite !chars_all_append, Ht.
  apply andb_true_iff; split; [reflexivity|].
  now apply normalize_skill_not_hyphen.
Qed.

Lemma searched_text_not_hyphen (text : string) :
  chars_all not_hyphen (searched_text text) = true.
Proof.
  unfold searched_text. cbv zeta.
  assert (Hp : chars_all not_hyphen (preprocess_text text) = true).
  { generalize (preprocess_text_chars text). apply chars_all_impl.
    exact norm_char_not_hyphen. }
  rewrite !chars_all_append.
  apply andb_true_iff; split; [reflexivity|].
  apply andb_true_iff; split; [|reflexivity].
  apply expand_aliases_not_hyphen; [exact Hp|].
  apply chars_all_split_from; [reflexivity|].
  revert Hp. apply chars_all_impl. intros c Hc. now rewrite Hc, orb_true_r.
Qed.

Lemma chars_all_occurs (q : ascii -> bool) (k s : string) :
  occurs_in k s -> chars_all q s = true -> chars_all q k = true.
Proof.
  intros (pre & post & ->). rewrite !chars_all_append, !andb_true_iff. tauto.
Qed.

Lemma flanked_occurs (k s : string) : flanked k s -> occurs_in k s.
Proof. intros (pre & post & E & _). now exists pre, post. Qed.

(** X2. A skill whose name holds a hyphen is never extracted, whatever the
    text: normalization turns every hyphen of the text into a blank, and no
    alias expands to a name with a hyphen. *)
Theorem hyphenated_skill_never_extracted
    (text : string) (skill_list : option (list string)) (skill : string) :
  occurs_in "-" skill -> skill ∉ extract_skills text skill_list.
Proof.
  intros Hh Hin. apply elem_of_extract_skills in Hin as [_ Hf].
  apply flanked_occurs in Hf.
  pose proof (chars_all_occurs not_hyphen _ _ Hf (searched_text_not_hyphen text)) as Hl.
  rewrite chars_all_lower in Hl.
  pose proof (chars_all_occurs (fun c => not_hyphen (lower_char c)) _ _ Hh Hl) as H.
  discriminate H.
Qed.

Lemma hyphenated_skill_never_extracted_witness :
  occurs_in "-" "scikit-learn" /\
  "scikit-learn" ∉ extract_skills "Built models with scikit-learn" None.
Proof.
  assert (H : occurs_in "-" "scikit-learn") by (now exists "scikit", "learn").
  split; [exact H|].
  exact (hyphenated_skill_never_extracted _ None _ H).
Defined.

(** X1. [extract_skills] returns, each once, the skills of the list it is
    given (the whole vocabulary by default) whose lower-case form occurs in
    the searched text between two boundaries, the ends of the text counting
    as boundaries. *)
Theorem extract_skills_spec (text : string) (skill_list : option (list string)) :
  NoDup (extract_skills text skill_list) /\
  forall skill,
    skill ∈ extract_skills text skill_list <->
    skill ∈ default ALL_SKILLS skill_list /\
    flanked (lower skill) (searched_text text).
Proof. exact (elem_of_extract_skills text skill_list). Qed.


(** ** Frequencies and the analysis result *)

Section FindSearch.
Import Re.

(** [findall] finds something exactly when [search] does. *)
Lemma scan_nonempty (r : regex) (n : nat) (s : string) :
  nonempty (scan r n 0 s) = search_from r n s.
Proof.
  revert n. induction s as [|a s IH]; intros n; cbn [scan search_from].
  - now destruct (match_at r n "").
  - destruct (match_at r n (String a s)); [reflexivity | apply IH].
Qed.

Lemma findall_nonempty (r : regex) (s : string) :
  nonempty (findall r s) = search r s.
Proof.
  unfold findall, finditer, search. rewrite <- scan_nonempty.
  now destruct (scan r 0 0 s).
Qed.
End FindSearch.

Lemma nonempty_length {A} (l : list A) : nonempty l = true <-> 1 <= length l.
Proof. destruct l; cbn; split; intros; try lia; try reflexivity; discriminate. Qed.

Lemma frequency_fold (t : string) (l : list string) (acc : gmap string nat) (x : string) :
  let count skill := length (Re.findall (skill_pattern (lower skill)) t) in
  fold_left
    (fun (frequency : gmap string nat) skill =>
       if nonempty (Re.findall (skill_pattern (lower skill)) t)
       then <[skill := length (Re.findall (skill_pattern (lower skill)) t)]> frequency
       else frequency) l acc !! x
  = if decide (x ∈ l /\ 1 <= count x) then Some (count x) else acc !! x.
Proof.
  cbv zeta. revert acc. induction l as [|s l IH]; intros acc; cbn [fold_left].
  - case_decide as H; [|reflexivity]. destruct H as [H _]. now apply not_elem_of_nil in H.
  - rewrite IH. clear IH.
    set (cnt := length (Re.findall (skill_pattern (lower x)) t)).
    destruct (decide (x ∈ l /\ 1 <= cnt)) as [[Hl Hc]|Hno].
    + rewrite decide_True by (split; [now right | exact Hc]). reflexivity.
    + destruct (decide (s = x)) as [->|Hne].
      * fold cnt. destruct (nonempty (Re.findall (skill_pattern (lower x)) t)) eqn:E.
        -- apply nonempty_length in E. fold cnt in E.
           rewrite decide_True by (split; [now left | exact E]).
           apply lookup_insert_eq.
        -- rewrite decide_False; [reflexivity|].
           intros [_ Hc]. apply nonempty_length in Hc. congruence.
      * rewrite (decide_False (P := x ∈ s :: l /\ 1 <= cnt)).
        -- destruct (nonempty _); [now rewrite lookup_insert_ne | reflexivity].
        -- intros [Hin Hc]. apply elem_of_cons in Hin as [->|Hin]; [congruence|].
           apply Hno. now split.
Qed.

(** The frequency map holds a skill exactly when the skill is among those
    asked for and stands between boundaries in the normalized text (aliases
    are not expanded here); its count is the number of matches, which do not
    overlap. *)
Lemma lookup_get_skill_frequency (text : string) (skills : list string) (skill : string) (n : nat) :
  get_skill_frequency text skills !! skill = Some n <->
  skill ∈ skills /\
  n = length (Re.findall (skill_pattern (lower skill)) (counted_text text)) /\
  flanked (lower skill) (counted_text text).
Proof.
  unfold get_skill_frequency, counted_text. cbv zeta.
  generalize (" " +:+ preprocess_text text +:+ " ") as t. intros t.
  rewrite frequency_fold. cbv zeta.
  rewrite <- skill_pattern_search, <- findall_nonempty, nonempty_length.
  case_decide as H.
  - split; [intros [= <-]; tauto | intros (_ & -> & _); reflexivity].
  - rewrite lookup_empty. split; [discriminate | tauto].
Qed.

Lemma elem_of_sorted (x : string) (l : list string) : x ∈ sorted l <-> x ∈ l.
Proof.
  rewrite !list_elem_of_In. split; apply Permutation_in;
    [symmetry|]; apply sorted_perm.
Qed.

Lemma length_sorted (l : list string) : length (sorted l) = length l.
Proof. symmetry. apply Permutation_length, sorted_perm. Qed.

Lemma high_priority_elem (resume_text job_description : string) :
  let r := analyze_resume resume_text job_description in
  let frequency :=
    get_skill_frequency job_description (extract_skills job_description None) in
  exists high missing,
    high_priority_missing r = Some high /\ missing_skills r = Some missing /\
    forall skill,
      skill ∈ high <->
      skill ∈ missing /\ exists n, frequency !! skill = Some n /\ 2 <= n.
Proof.
  cbv zeta. unfold analyze_resume.
  destruct (calculate_match _ _) as [[[score matched] missing] extra].
  cbn [high_priority_missing missing_skills].
  eexists _, _. split; [reflexivity|]. split; [reflexivity|].
  intros skill. rewrite !elem_of_sorted, list_elem_of_In, filter_In, <- list_elem_of_In.
  apply and_iff_compat_l. rewrite Nat.leb_le.
  destruct (get_skill_frequency _ _ !! skill) as [n|]; cbn [default].
  - split; [intros H; now exists n | intros (n' & [= <-] & H); exact H].
  - split; [lia | intros (n' & [=] & _)].
Qed.

Lemma all_skills_lower (s : string) : s ∈ ALL_SKILLS -> lower s = s.
Proof.
  intros H. apply list_elem_of_In in H.
  assert (Hall : forallb (fun s => String.eqb (lower s) s) ALL_SKILLS = true)
    by (vm_compute; reflexivity).
  rewrite forallb_forall in Hall. now apply String.eqb_eq, Hall.
Qed.

Lemma map_lower_id (l : list string) :
  Forall (fun s => lower s = s) l -> map lower l = l.
Proof. induction 1 as [|s l Hs Hl IH]; [reflexivity|]. cbn [map]. now rewrite Hs, IH. Qed.

Lemma length_restored (X : gset string) :
  length (map get_original_case (elements X)) = size X.
Proof. now rewrite length_map. Qed.

Lemma size_split (X Y : gset string) : size X = size (Y ∩ X) + size (X ∖ Y).
Proof.
  rewrite <- size_union by set_solver. f_equal.
  apply set_eq. intros x. destruct (decide (x ∈ Y)); set_solver.
Qed.

Lemma size_split_l (X Y : gset string) : size X = size (X ∩ Y) + size (X ∖ Y).
Proof.
  rewrite <- size_union by set_solver. f_equal.
  apply set_eq. intros x. destruct (decide (x ∈ Y)); set_solver.
Qed.

Lemma calculate_match_lengths (resume_skills jd_skills : list string) :
  NoDup resume_skills -> NoDup jd_skills ->
  Forall (fun s => lower s = s) resume_skills ->
  Forall (fun s => lower s = s) jd_skills ->
  let '(score, matched, missing, extra) := calculate_match resume_skills jd_skills in
  length jd_skills = length matched + length missing /\
  length resume_skills = length matched + length extra /\
  score = (if Nat.eqb (length jd_skills) 0 then 0
           else round1 (inject_Z (Z.of_nat (length matched))
                        / inject_Z (Z.of_nat (length jd_skills)) * 100))%Q.
Proof.
  intros Hr Hj Hrl Hjl. unfold calculate_match.
  destruct jd_skills as [|j jd_skills]; simpl negb; cbv iota.
  - cbn [length]. auto.
  - rewrite (map_lower_id _ Hrl), (map_lower_id _ Hjl).
    rewrite !length_restored.
    set (R := list_to_set resume_skills : gset string).
    set (J := list_to_set (j :: jd_skills) : gset string).
    assert (HJ : size J = length (j :: jd_skills)) by (now apply size_list_to_set).
    assert (HR : size R = length resume_skills) by (now apply size_list_to_set).
    rewrite <- HJ, <- HR. split; [apply size_split|]. split; [apply size_split_l|].
    rewrite HJ. reflexivity.
Qed.

Lemma extract_skills_lower (text : string) :
  Forall (fun s => lower s = s) (extract_skills text None).
Proof.
  eapply Forall_impl; [apply extract_skills_canonical|].
  intros s Hs. now apply all_skills_lower.
Qed.


(** X4. What [get_skill_frequency] records: a skill has an entry exactly when
    it is one of the skills given and occurs between boundaries in the
    normalized text, and the entry is the number of matches of its pattern,
    at least one. *)
Theorem get_skill_frequency_spec (text : string) (skills : list string)
    (skill : string) (n : nat) :
  get_skill_frequency text skills !! skill = Some n <->
  skill ∈ skills /\
  n = length (Re.findall (skill_pattern (lower skill)) (counted_text text)) /\
  1 <= n /\ flanked (lower skill) (counted_text text).
Proof.
  rewrite lookup_get_skill_frequency. split.
  - intros (Hin & Hn & Hf). repeat split; try assumption.
    subst n. apply nonempty_length. rewrite findall_nonempty.
    now apply skill_pattern_search.
  - intros (Hin & Hn & _ & Hf). auto.
Qed.

(** ** calculate_match: the extremes *)

Lemma round1_whole (q : Q) (z : Z) :
  (q * 10 == inject_Z (10 * z))%Q -> (round1 q == inject_Z z)%Q.
Proof.
  intros H. unfold round1.
  assert (round_half_even (q * 10) = (10 * z)%Z) as ->.
  { apply Z.le_antisymm;
      [apply round_half_even_le | apply round_half_even_ge]; rewrite H; apply Qle_refl. }
  unfold Qdiv, Qeq. cbn. lia.
Qed.

(** X7. When every skill of the job description is among the resume's, case
    ignored, the score is 100 and nothing is missing; when none is, the score
    is 0 and nothing is matched. *)
Theorem calculate_match_extremes (resume_skills jd_skills : list string) :
  jd_skills <> [] ->
  let '(score, matched, missing, extra) := calculate_match resume_skills jd_skills in
  (lower_set jd_skills ⊆ lower_set resume_skills -> (score == 100)%Q /\ missing = []) /\
  (lower_set jd_skills ## lower_set resume_skills -> (score == 0)%Q /\ matched = []).
Proof.
  intros Hne. unfold calculate_match.
  destruct jd_skills as [|j jd_skills]; [congruence|]. simpl negb. cbv iota.
  fold (lower_set resume_skills). fold (lower_set (j :: jd_skills)).
  set (R := lower_set resume_skills). set (J := lower_set (j :: jd_skills)).
  assert (Hpos : (0 < size J)%nat).
  { apply (size_pos_of_elem (lower j)). unfold J, lower_set. set_solver. }
  split.
  - intros Hsub.
    assert (R ∩ J = J) as -> by set_solver.
    assert (J ∖ R = ∅) as -> by set_solver.
    split; [|now rewrite elements_empty].
    apply (round1_whole _ 100).
    assert (~ inject_Z (Z.of_nat (size J)) == 0)%Q as Hnz.
    { change 0%Q with (inject_Z 0). rewrite inject_Z_injective. lia. }
    unfold Qdiv. rewrite Qmult_inv_r by exact Hnz. reflexivity.
  - intros Hdis.
    assert (R ∩ J = ∅) as -> by set_solver.
    split; [|now rewrite elements_empty].
    apply (round1_whole _ 0). rewrite size_empty. unfold Qdiv. cbn [Z.of_nat].
    change (inject_Z 0) with 0%Q. rewrite !Qmult_0_l. reflexivity.
Qed.

Lemma calculate_match_extremes_witness :
  ["python"] <> [] /\
  let '(score, matched, missing, extra) :=
    calculate_match ["Python"; "go"] ["python"] in
  (lower_set ["python"] ⊆ lower_set ["Python"; "go"] ->
     (score == 100)%Q /\ missing = []) /\
  (lower_set ["python"] ## lower_set ["Python"; "go"] ->
     (score == 0)%Q /\ matched = []).
Proof.
  split; [discriminate|].
  apply (calculate_match_extremes ["Python"; "go"] ["python"]). discriminate.
Defined.



(** ** generate_suggestions: order and conditions *)

Ltac sublist_literal :=
  repeat first [apply sublist_nil | apply sublist_skip | apply sublist_cons].

Ltac emits_literal :=
  split_cases;
  (split;
   [ cbn [map category app]; sublist_literal
   | cbn [app];
     repeat (constructor; [cbn [type]; unfold SUGGESTION_TYPES; set_solver|]);
     constructor ]).

Lemma emits_app (c1 c2 : list string) (b1 b2 : list suggestion) :
  emits c1 b1 -> emits c2 b2 -> emits (c1 ++ c2) (b1 ++ b2).
Proof.
  intros [H1 T1] [H2 T2]. split.
  - rewrite map_app. now apply sublist_app.
  - apply Forall_app. now split.
Qed.

Lemma emits_score a : emits ["Match Score"] (score_feedback a).
Proof. unfold score_feedback. cbv zeta. emits_literal. Qed.

Lemma emits_critical_gap a : emits ["Critical Skills Gap"] (critical_gap_feedback a).
Proof. unfold critical_gap_feedback. cbv zeta. emits_literal. Qed.

Lemma emits_category a :
  emits ["Programming Languages"; "Frameworks"; "Cloud/DevOps"] (category_feedback a).
Proof. unfold category_feedback. cbv zeta. emits_literal. Qed.

Lemma emits_experience a :
  emits ["Experience Level"; "Years Required"] (experience_feedback a).
Proof.
  unfold experience_feedback. cbv zeta.
  destruct (jd_years_required a); emits_literal.
Qed.

Lemma emits_action_verb text : emits ["Action Verbs"] (action_verb_feedback text).
Proof.
  unfold action_verb_feedback. destruct (check_action_verbs text).
  cbv zeta. emits_literal.
Qed.

Lemma emits_metrics text : emits ["Quantifiable Results"] (metrics_feedback text).
Proof.
  unfold metrics_feedback. destruct (check_quantifiable_achievements text).
  emits_literal.
Qed.

Lemma emits_length text : emits ["Content Length"] (length_feedback text).
Proof. unfold length_feedback. destruct (check_resume_length text). emits_literal. Qed.

Lemma emits_sections text : emits ["Resume Structure"] (sections_feedback text).
Proof.
  unfold sections_feedback. destruct (check_sections text). cbv zeta. emits_literal.
Qed.

Lemma emits_contact text : emits ["Contact Info"; "Online Presence"] (contact_feedback text).
Proof. unfold contact_feedback. cbv zeta. emits_literal. Qed.

Lemma emits_context text a : emits ["Skills Integration"] (context_feedback text a).
Proof.
  unfold context_feedback. cbv zeta.
  destruct (nonempty _); [|emits_literal].
  destruct (check_keyword_stuffing _ _). emits_literal.
Qed.

Lemma emits_ats : emits ["ATS Optimization"] [ats_tip].
Proof. unfold ats_tip. emits_literal. Qed.

Lemma emits_education a : emits ["Education"] (education_feedback a).
Proof. unfold education_feedback. cbv zeta. emits_literal. Qed.

Lemma emits_generate_suggestions text a :
  emits SUGGESTION_CATEGORIES (generate_suggestions text a).
Proof.
  unfold generate_suggestions.
  change SUGGESTION_CATEGORIES with
    (["Match Score"] ++ ["Critical Skills Gap"] ++
     ["Programming Languages"; "Frameworks"; "Cloud/DevOps"] ++
     ["Experience Level"; "Years Required"] ++ ["Action Verbs"] ++
     ["Quantifiable Results"] ++ ["Content Length"] ++ ["Resume Structure"] ++
     ["Contact Info"; "Online Presence"] ++ ["Skills Integration"] ++
     ["ATS Optimization"] ++ ["Education"]).
  apply emits_app; [apply emits_score|].
  apply emits_app; [apply emits_critical_gap|].
  apply emits_app; [apply emits_category|].
  apply emits_app; [apply emits_experience|].
  apply emits_app; [apply emits_action_verb|].
  apply emits_app; [apply emits_metrics|].
  apply emits_app; [apply emits_length|].
  apply emits_app; [apply emits_sections|].
  apply emits_app; [apply emits_contact|].
  apply emits_app; [apply emits_context|].
  apply emits_app; [apply emits_ats | apply emits_education].
Qed.

(** X9. The items of the cascade come in the order of its rules: their
    categories form a subsequence of the sixteen categories in rule order, so
    no category comes twice, there are sixteen items at most, and every item
    has one of the four severities. *)
Theorem generate_suggestions_order (resume_text : string) (a : analysis_results) :
  let suggestions := generate_suggestions resume_text a in
  map category suggestions `sublist_of` SUGGESTION_CATEGORIES /\
  NoDup (map category suggestions) /\
  length suggestions <= 16 /\
  Forall (fun s => type s ∈ SUGGESTION_TYPES) suggestions.
Proof.
  cbv zeta. destruct (emits_generate_suggestions resume_text a) as [Hs Ht].
  split; [exact Hs|]. split; [|split; [|exact Ht]].
  - eapply sublist_NoDup; [|exact Hs].
    unfold SUGGESTION_CATEGORIES. repeat (constructor; [set_solver|]). constructor.
  - apply sublist_length in Hs. now rewrite length_map in Hs.
Qed.

Lemma category_only_in (text : string) (a : analysis_results) (c : string) :
  c ∈ map category (generate_suggestions text a) <->
  c ∈ map category (score_feedback a) \/ c ∈ map category (critical_gap_feedback a) \/
  c ∈ map category (category_feedback a) \/ c ∈ map category (experience_feedback a) \/
  c ∈ map category (action_verb_feedback text) \/ c ∈ map category (metrics_feedback text) \/
  c ∈ map category (length_feedback text) \/ c ∈ map category (sections_feedback text) \/
  c ∈ map category (contact_feedback text) \/ c ∈ map category (context_feedback text a) \/
  c ∈ map category [ats_tip] \/ c ∈ map category (education_feedback a).
Proof. unfold generate_suggestions. now rewrite !map_app, !elem_of_app. Qed.

Lemma emitted_in (cats : list string) (block : list suggestion) (c : string) :
  emits cats block -> c ∈ map category block -> c ∈ cats.
Proof. intros [H _] Hc. exact (elem_of_sublist _ _ _ Hc H). Qed.

Lemma years_in_experience (a : analysis_results) :
  "Years Required" ∈ map category (experience_feedback a) <->
  exists n, jd_years_required a = Some n /\ n <> 0%Z.
Proof.
  unfold experience_feedback. cbv zeta. rewrite map_app, elem_of_app.
  destruct (jd_years_required a) as [n|].
  - destruct (Z.eqb_spec n 0) as [->|Hn]; cbn [negb map category].
    + split; [|intros (n & [= <-] & H); congruence].
      intros [H|H]; [|now apply not_elem_of_nil in H].
      destruct (negb _); cbn [map category] in H; set_solver.
    + split; [intros _; now exists n|]. intros _. right. now left.
  - split; [|intros (n & [=] & _)].
    intros [H|H]; [|now apply not_elem_of_nil in H].
    destruct (negb _); cbn [map category] in H; set_solver.
Qed.

Lemma years_in_cascade (resume_text : string) (a : analysis_results) :
  "Years Required" ∈ map category (generate_suggestions resume_text a) <->
  exists n, jd_years_required a = Some n /\ n <> 0%Z.
Proof.
  rewrite <- years_in_experience, category_only_in. split; [|tauto].
  intros [H|[H|[H|[H|[H|[H|[H|[H|[H|[H|[H|H]]]]]]]]]]]; [| | |exact H| | | | | | | |];
    exfalso.
  - apply (emitted_in _ _ _ (emits_score a)) in H. set_solver.
  - apply (emitted_in _ _ _ (emits_critical_gap a)) in H. set_solver.
  - apply (emitted_in _ _ _ (emits_category a)) in H. set_solver.
  - apply (emitted_in _ _ _ (emits_action_verb resume_text)) in H. set_solver.
  - apply (emitted_in _ _ _ (emits_metrics resume_text)) in H. set_solver.
  - apply (emitted_in _ _ _ (emits_length resume_text)) in H. set_solver.
  - apply (emitted_in _ _ _ (emits_sections resume_text)) in H. set_solver.
  - apply (emitted_in _ _ _ (emits_contact resume_text)) in H. set_solver.
  - apply (emitted_in _ _ _ (emits_context resume_text a)) in H. set_solver.
  - apply (emitted_in _ _ _ emits_ats) in H. set_solver.
  - apply (emitted_in _ _ _ (emits_education a)) in H. set_solver.
Qed.

Lemma education_in_block (a : analysis_results) :
  "Education" ∈ map category (education_feedback a) <-> education_feedback a <> [].
Proof.
  unfold education_feedback. cbv zeta. split_cases; cbn [map category];
    split; try congruence; try (intros; discriminate);
    try (intros H; now apply not_elem_of_nil in H); intros _; now left.
Qed.

Lemma education_in_cascade (resume_text : string) (a : analysis_results) :
  let jd := default [] (jd_education a) in
  let resume := default [] (resume_education a) in
  "Education" ∈ map category (generate_suggestions resume_text a) <->
  ("masters" ∈ jd) /\ ("masters" ∉ resume) /\ ("phd" ∉ resume).
Proof.
  cbv zeta. rewrite <- (education_feedback_fires a), <- education_in_block.
  rewrite category_only_in. split; [|tauto].
  intros [H|[H|[H|[H|[H|[H|[H|[H|[H|[H|[H|H]]]]]]]]]]]; [| | | | | | | | | | |exact H];
    exfalso.
  - apply (emitted_in _ _ _ (emits_score a)) in H. set_solver.
  - apply (emitted_in _ _ _ (emits_critical_gap a)) in H. set_solver.
  - apply (emitted_in _ _ _ (emits_category a)) in H. set_solver.
  - apply (emitted_in _ _ _ (emits_experience a)) in H. set_solver.
  - apply (emitted_in _ _ _ (emits_action_verb resume_text)) in H. set_solver.
  - apply (emitted_in _ _ _ (emits_metrics resume_text)) in H. set_solver.
  - apply (emitted_in _ _ _ (emits_length resume_text)) in H. set_solver.
  - apply (emitted_in _ _ _ (emits_sections resume_text)) in H. set_solver.
  - apply (emitted_in _ _ _ (emits_contact resume_text)) in H. set_solver.
  - apply (emitted_in _ _ _ (emits_context resume_text a)) in H. set_solver.
  - apply (emitted_in _ _ _ emits_ats) in H. set_solver.
Qed.

(** X12. The severity of the first suggestion is the class that
    [get_score_category] gives the score. *)
Theorem first_suggestion_score_category (resume_text : string) (a : analysis_results) :
  exists band rest,
    generate_suggestions resume_text a = band :: rest /\
    type band = snd (get_score_category (default 0%Q (match_score a))).
Proof.
  unfold generate_suggestions, score_feedback, get_score_category. cbv zeta.
  destruct (Qle_bool 80 _); [|destruct (Qle_bool 60 _); [|destruct (Qle_bool 40 _)]];
    cbn [app]; eexists _, _; split; reflexivity.
Qed.

(** X10. The item about the years required is emitted exactly when a number
    of years was found in the job description and it is not zero: a
    requirement of 0 years is passed over like an absent one. *)
Theorem years_item_unless_zero (resume_text : string) (a : analysis_results) :
  "Years Required" ∈ map category (generate_suggestions resume_text a) <->
  exists n, jd_years_required a = Some n /\ n <> 0%Z.
Proof. exact (years_in_cascade resume_text a). Qed.

(** X11. The education item is among the suggestions exactly when the job
    description asks for a master's degree and the resume shows neither a
    master's degree nor a doctorate. *)
Theorem education_item_iff (resume_text : string) (a : analysis_results) :
  let jd := default [] (jd_education a) in
  let resume := default [] (resume_education a) in
  "Education" ∈ map category (generate_suggestions resume_text a) <->
  ("masters" ∈ jd) /\ ("masters" ∉ resume) /\ ("phd" ∉ resume).
Proof. exact (education_in_cascade resume_text a). Qed.

(** X5. The high-priority skills of an analysis are exactly its missing
    skills that the frequency map of the job description counts at least
    twice. *)
Theorem high_priority_missing_spec (resume_text job_description : string) :
  let r := analyze_resume resume_text job_description in
  let frequency :=
    get_skill_frequency job_description (extract_skills job_description None) in
  exists high missing,
    high_priority_missing r = Some high /\ missing_skills r = Some missing /\
    forall skill,
      skill ∈ high <->
      skill ∈ missing /\ exists n, frequency !! skill = Some n /\ 2 <= n.
Proof. exact (high_priority_elem resume_text job_description). Qed.

(** ** Detectors and rules *)

Ltac other_block H text a :=
  exfalso;
  first [ apply (emitted_in _ _ _ (emits_score a)) in H
        | apply (emitted_in _ _ _ (emits_critical_gap a)) in H
        | apply (emitted_in _ _ _ (emits_category a)) in H
        | apply (emitted_in _ _ _ (emits_experience a)) in H
        | apply (emitted_in _ _ _ (emits_action_verb text)) in H
        | apply (emitted_in _ _ _ (emits_metrics text)) in H
        | apply (emitted_in _ _ _ (emits_length text)) in H
        | apply (emitted_in _ _ _ (emits_sections text)) in H
        | apply (emitted_in _ _ _ (emits_contact text)) in H
        | apply (emitted_in _ _ _ (emits_context text a)) in H
        | apply (emitted_in _ _ _ emits_ats) in H
        | apply (emitted_in _ _ _ (emits_education a)) in H ];
  set_solver.

Lemma detect_in_sublist (table : list (string * list string)) (text_lower : string) :
  detect_in table text_lower `sublist_of` map fst table.
Proof.
  unfold detect_in. induction table as [|e table IH]; cbn [List.filter map].
  - constructor.
  - destruct (existsb _ _); cbn [map]; [now apply sublist_skip | now apply sublist_cons].
Qed.

(** X13. The education levels detected are those whose keywords occur in the
    lower-cased text, listed in the order doctorate, master's, bachelor's,
    degree, each once. *)
Theorem detect_education_requirement_spec (text : string) :
  let detected := detect_education_requirement text in
  detected `sublist_of` ["phd"; "masters"; "bachelors"; "degree"] /\
  forall level, level ∈ detected <-> mentions EDUCATION_KEYWORDS level (lower text).
Proof.
  cbv zeta. unfold detect_education_requirement. cbv zeta. split.
  - apply (detect_in_sublist EDUCATION_KEYWORDS).
  - intros level. apply elem_of_detect_in.
Qed.

Lemma filter_partition (p : string -> bool) (l : list string) :
  Permutation (List.filter p l ++ List.filter (fun s => negb (p s)) l) l.
Proof.
  induction l as [|x l IH]; cbn [List.filter]; [constructor|].
  destruct (p x); cbn [negb app].
  - now constructor.
  - rewrite <- Permutation_middle. now constructor.
Qed.

(** X14. [check_sections] splits the six section names in two: those that
    occur in the lower-cased text and those that do not. *)
Theorem check_sections_partition (resume_text : string) :
  let '(found, missing) := check_sections resume_text in
  Permutation (found ++ missing) IMPORTANT_SECTIONS /\
  (forall s, s ∈ found <->
             s ∈ IMPORTANT_SECTIONS /\ occurs_in s (lower resume_text)) /\
  (forall s, s ∈ missing <->
             s ∈ IMPORTANT_SECTIONS /\ ~ occurs_in s (lower resume_text)).
Proof.
  unfold check_sections. cbv zeta. split; [apply filter_partition|].
  split; intros s; rewrite list_elem_of_In, filter_In, <- list_elem_of_In;
    apply and_iff_compat_l.
  - apply contains_occurs.
  - rewrite <- contains_occurs, negb_true_iff. now destruct (contains s _).
Qed.

Lemma sections_in_block (text : string) :
  "Resume Structure" ∈ map category (sections_feedback text) <->
  exists s, s ∈ ["experience"; "education"; "skills"] /\ ~ occurs_in s (lower text).
Proof.
  unfold sections_feedback, check_sections. cbv zeta.
  set (critical :=
         List.filter (fun s => in_list s ["experience"; "education"; "skills"])
                     (List.filter (fun s => negb (contains s (lower text)))
                                  IMPORTANT_SECTIONS)).
  assert (Hc : forall s, s ∈ critical <->
             s ∈ ["experience"; "education"; "skills"] /\ ~ occurs_in s (lower text)).
  { intros s. unfold critical, in_list.
    rewrite list_elem_of_In, !filter_In, <- list_elem_of_In, bool_decide_eq_true.
    rewrite <- contains_occurs, negb_true_iff. unfold IMPORTANT_SECTIONS.
    destruct (contains s _); set_solver. }
  clearbody critical. destruct critical as [|c l]; cbn [nonempty map category].
  - split; [intros H; now apply not_elem_of_nil in H|].
    intros (s & Hs). apply Hc in Hs. now apply not_elem_of_nil in Hs.
  - split; [|intros _; now left]. intros _. exists c. apply Hc. now left.
Qed.

(** X15. The item about the structure of the resume is emitted exactly when
    one of the words experience, education and skills does not occur in the
    lower-cased text. *)
Theorem sections_item_iff (resume_text : string) (a : analysis_results) :
  "Resume Structure" ∈ map category (generate_suggestions resume_text a) <->
  exists s, s ∈ ["experience"; "education"; "skills"] /\
            ~ occurs_in s (lower resume_text).
Proof.
  rewrite <- sections_in_block, category_only_in. split; [|tauto].
  intros [H|[H|[H|[H|[H|[H|[H|[H|[H|[H|[H|H]]]]]]]]]]]; [| | | | | | |exact H| | | |];
    other_block H resume_text a.
Qed.

Lemma ratio_below (c t : nat) : 0 < t ->
  Qlt_bool (inject_Z (Z.of_nat c) / inject_Z (Z.of_nat t)) (3 # 10) = true
  <-> 10 * c < 3 * t.
Proof.
  intros Ht. unfold Qlt_bool. rewrite negb_true_iff, <- not_true_iff_false, Qle_bool_iff.
  destruct t as [|t]; [lia|].
  pose proof (Zpos_P_of_succ_nat t) as Hp.
  change (Z.of_nat (S t)) with (Z.pos (Pos.of_succ_nat t)).
  unfold Qle, Qdiv, Qmult, Qinv, inject_Z. cbn [Qnum Qden].
  rewrite Z.mul_1_r, Pos.mul_1_l. lia.
Qed.

Lemma context_in_block (text : string) (a : analysis_results) :
  let matched := default [] (matched_skills a) in
  "Skills Integration" ∈ map category (context_feedback text a) <->
  matched <> [] /\
  10 * fst (check_keyword_stuffing text matched) < 3 * length matched.
Proof.
  cbv zeta. unfold context_feedback. cbv zeta.
  destruct (default [] (matched_skills a)) as [|m l] eqn:E; cbn [nonempty].
  - cbn [map]. split; [intros H; now apply not_elem_of_nil in H | intros [H _]; congruence].
  - unfold check_keyword_stuffing. cbv zeta. cbn [fst].
    set (c := length (List.filter _ (m :: l))).
    assert (Ht : 0 < length (m :: l)) by (cbn [length]; lia).
    destruct (Nat.ltb_spec 0 (length (m :: l))) as [_|]; [|lia]. cbn [andb].
    pose proof (ratio_below c (length (m :: l)) Ht) as Hr.
    destruct (Qlt_bool _ _); cbn [map category].
    + split; [|intros _; now left]. intros _. split; [discriminate|]. now apply Hr.
    + split; [intros H; now apply not_elem_of_nil in H|].
      intros [_ H]. apply Hr in H. discriminate.
Qed.

(** X16. The skills counted as used in context never outnumber the matched
    skills, and the item about skills in context is emitted exactly when
    there is a matched skill and fewer than three in ten are used in
    context. *)
Theorem context_item_iff (resume_text : string) (a : analysis_results) :
  let matched := default [] (matched_skills a) in
  let '(contextual, total) := check_keyword_stuffing resume_text matched in
  contextual <= total /\ total = length matched /\
  ("Skills Integration" ∈ map category (generate_suggestions resume_text a) <->
   matched <> [] /\ 10 * contextual < 3 * total).
Proof.
  cbv zeta. pose proof (context_in_block resume_text a) as Hb. cbv zeta in Hb.
  unfold check_keyword_stuffing in *. cbv zeta in *. cbn [fst] in Hb.
  split; [apply filter_length_le|]. split; [reflexivity|].
  rewrite <- Hb, category_only_in. split; [|tauto].
  intros [H|[H|[H|[H|[H|[H|[H|[H|[H|[H|[H|H]]]]]]]]]]]; [| | | | | | | | |exact H| |];
    other_block H resume_text a.
Qed.

(** ** categorize_skills *)

Lemma categorize_fold (skills : list string) (categories : gmap string (list string))
    (key : string) :
  fold_left
    (fun categories skill =>
       let skill_lower := lower skill in
       if in_list skill_lower (map lower PROGRAMMING_LANGUAGES)
       then append_to "programming" skill categories
       else if in_list skill_lower (map lower FRAMEWORKS_LIBRARIES)
       then append_to "frameworks" skill categories
       else if in_list skill_lower (map lower DATABASES)
       then append_to "databases" skill categories
       else if in_list skill_lower (map lower CLOUD_DEVOPS)
       then append_to "cloud_devops" skill categories
       else if in_list skill_lower (map lower DATA_AI_ML)
       then append_to "data_ai" skill categories
       else if in_list skill_lower (map lower TOOLS_PLATFORMS)
       then append_to "tools" skill categories
       else if in_list skill_lower (map lower SOFT_SKILLS)
       then append_to "soft_skills" skill categories
       else categories)
    skills categories !! key
  = (fun l => l ++ skills_of_category key skills) <$> (categories !! key).
Proof.
  revert categories. induction skills as [|s skills IH]; intros categories.
  - cbn [fold_left]. unfold skills_of_category. cbn [List.filter].
    destruct (categories !! key); cbn; [now rewrite app_nil_r | reflexivity].
  - cbn [fold_left]. rewrite IH. clear IH. cbv zeta.
    unfold skills_of_category at 2. cbn [List.filter]. fold (skills_of_category key skills).
    unfold category_key, append_to.
    repeat match goal with
           | |- context [if in_list ?x ?l then _ else _] => destruct (in_list x l)
           end;
      rewrite ?lookup_alter; repeat case_decide; simplify_eq;
      try (case_bool_decide; simplify_eq);
      try (destruct (categories !! _); cbn; rewrite <- ?app_assoc; reflexivity).
Qed.

Lemma skills_of_category_cons (key s : string) (skills : list string) :
  skills_of_category key (s :: skills) =
  if bool_decide (category_key (lower s) = Some key)
  then s :: skills_of_category key skills else skills_of_category key skills.
Proof. reflexivity. Qed.

Lemma categories_cons_out (keys : list string) (s : string) (skills : list string) :
  (forall key, key ∈ keys -> category_key (lower s) <> Some key) ->
  concat (map (fun key => skills_of_category key (s :: skills)) keys)
  = concat (map (fun key => skills_of_category key skills) keys).
Proof.
  induction keys as [|k keys IH]; intros H; [reflexivity|]. cbn [map concat].
  rewrite skills_of_category_cons, bool_decide_eq_false_2 by (apply H; now left).
  rewrite IH; [reflexivity|]. intros key Hk. apply H. now right.
Qed.

Lemma categories_cons_in (keys : list string) (key s : string) (skills : list string) :
  NoDup keys -> key ∈ keys -> category_key (lower s) = Some key ->
  Permutation (concat (map (fun key => skills_of_category key (s :: skills)) keys))
              (s :: concat (map (fun key => skills_of_category key skills) keys)).
Proof.
  intros Hnd Hin Hk. induction Hnd as [|k keys Hk' Hnd IH]; [now apply not_elem_of_nil in Hin|].
  cbn [map concat]. rewrite skills_of_category_cons.
  destruct (decide (k = key)) as [->|Hne].
  - rewrite bool_decide_eq_true_2 by exact Hk. cbn [app].
    rewrite categories_cons_out; [reflexivity|].
    intros k Hkin E. rewrite Hk in E. injection E as <-. contradiction.
  - rewrite bool_decide_eq_false_2 by (rewrite Hk; congruence).
    apply elem_of_cons in Hin as [->|Hin]; [congruence|].
    rewrite (IH Hin). apply Permutation_sym, Permutation_middle.
Qed.

Lemma category_key_in_keys (skill_lower key : string) :
  category_key skill_lower = Some key -> key ∈ CATEGORY_KEYS.
Proof.
  unfold category_key, CATEGORY_KEYS.
  repeat match goal with
         | |- context [if ?c then _ else _] => destruct c
         end; intros [= <-] || discriminate; set_solver.
Qed.

Lemma in_list_lower (s : string) (l : list string) :
  s ∈ l -> in_list (lower s) (map lower l) = true.
Proof.
  intros H. apply bool_decide_eq_true. change (map lower l) with (lower <$> l).
  apply list_elem_of_fmap. now exists s.
Qed.

Lemma category_key_canonical (s : string) :
  canonical s -> is_Some (category_key (lower s)).
Proof.
  unfold canonical, ALL_SKILLS. rewrite !elem_of_app. unfold category_key.
  intros [H|[H|[H|[H|[H|[H|H]]]]]]; apply in_list_lower in H; rewrite ?H;
    repeat match goal with
           | |- context [if ?c then _ else _] => destruct c
           end; try (eexists; reflexivity); discriminate.
Qed.

Lemma categories_all (skills : list string) :
  Forall canonical skills ->
  Permutation (concat (map (fun key => skills_of_category key skills) CATEGORY_KEYS))
              skills.
Proof.
  induction 1 as [|s skills Hs Hl IH].
  - reflexivity.
  - destruct (category_key_canonical s Hs) as [key Hk].
    rewrite (categories_cons_in CATEGORY_KEYS key s skills).
    + now constructor.
    + unfold CATEGORY_KEYS. repeat (constructor; [set_solver|]). constructor.
    + exact (category_key_in_keys _ _ Hk).
    + exact Hk.
Qed.

Lemma sublist_filter_bool (p : string -> bool) (l : list string) :
  List.filter p l `sublist_of` l.
Proof.
  induction l as [|x l IH]; cbn [List.filter]; [constructor|].
  destruct (p x); [now apply sublist_skip | now apply sublist_cons].
Qed.

Lemma lookup_categorize_skills (skills : list string) (key : string) :
  categorize_skills skills !! key =
  if bool_decide (key ∈ CATEGORY_KEYS) then Some (skills_of_category key skills) else None.
Proof.
  unfold categorize_skills. cbv zeta.
  set (init := list_to_map _ : gmap string (list string)).
  assert (Hinit : init !! key =
            if bool_decide (key ∈ CATEGORY_KEYS) then Some [] else None).
  { unfold init, CATEGORY_KEYS. cbn [list_to_map foldr uncurry fst snd].
    rewrite !lookup_insert, lookup_empty.
    repeat case_decide; subst; try reflexivity; case_bool_decide; set_solver. }
  clearbody init. rewrite categorize_fold, Hinit.
  now destruct (bool_decide _).
Qed.

(** X17. [categorize_skills] always returns the seven categories; the list of
    a category holds, in their order, the skills given whose lower-cased name
    is first found in that category's part of the vocabulary; and when every
    skill given is a vocabulary name, the seven lists together hold each of
    them exactly once. *)
Theorem categorize_skills_partition (skills : list string) :
  let categories := categorize_skills skills in
  (forall key, is_Some (categories !! key) <-> key ∈ CATEGORY_KEYS) /\
  (forall key l, categories !! key = Some l ->
     l `sublist_of` skills /\
     forall skill, skill ∈ l <->
       skill ∈ skills /\ category_key (lower skill) = Some key) /\
  (Forall canonical skills ->
   Permutation
     (concat (map (fun key => default [] (categories !! key)) CATEGORY_KEYS))
     skills).
Proof.
  cbv zeta. split; [|split].
  - intros key. rewrite lookup_categorize_skills. case_bool_decide; split; auto.
    + intros [x Hx]. discriminate.
    + intros; contradiction.
  - intros key l. rewrite lookup_categorize_skills.
    case_bool_decide; [|discriminate]. intros [= <-].
    split; [apply sublist_filter_bool|].
    intros skill. unfold skills_of_category.
    now rewrite list_elem_of_In, filter_In, <- list_elem_of_In, bool_decide_eq_true.
  - intros Hc. etransitivity; [|exact (categories_all skills Hc)].
    apply Permutation_refl'. unfold CATEGORY_KEYS. cbn [map].
    rewrite !lookup_categorize_skills. reflexivity.
Qed.

(** ** analyze_resume into generate_suggestions *)

Lemma level_in_block (a : analysis_results) :
  "Experience Level" ∈ map category (experience_feedback a) <->
  default "not specified" (jd_experience_level a) <> "not specified".
Proof.
  unfold experience_feedback. cbv zeta. rewrite map_app, elem_of_app.
  set (level := default "not specified" (jd_experience_level a)).
  destruct (String.eqb_spec level "not specified") as [E|E]; cbn [negb map category].
  - split; [|congruence]. intros [H|H]; [now apply not_elem_of_nil in H|].
    exfalso. destruct (jd_years_required a) as [n|]; [destruct (negb (n =? 0)%Z)|];
      cbn [map category] in H; set_solver.
  - split; [intros _; exact E|]. intros _. left. now left.
Qed.

Lemma level_in_cascade (text : string) (a : analysis_results) :
  "Experience Level" ∈ map category (generate_suggestions text a) <->
  default "not specified" (jd_experience_level a) <> "not specified".
Proof.
  rewrite <- level_in_block, category_only_in. split; [|tauto].
  intros [H|[H|[H|[H|[H|[H|[H|[H|[H|[H|[H|H]]]]]]]]]]]; [| | |exact H| | | | | | | |];
    other_block H text a.
Qed.

Lemma gap_in_block (a : analysis_results) :
  "Critical Skills Gap" ∈ map category (critical_gap_feedback a) <->
  default [] (high_priority_missing a) <> [].
Proof.
  unfold critical_gap_feedback. cbv zeta.
  destruct (default [] (high_priority_missing a)); cbn [nonempty map category].
  - split; [intros H; now apply not_elem_of_nil in H | congruence].
  - split; [discriminate | intros _; now left].
Qed.

Lemma gap_in_cascade (text : string) (a : analysis_results) :
  "Critical Skills Gap" ∈ map category (generate_suggestions text a) <->
  default [] (high_priority_missing a) <> [].
Proof.
  rewrite <- gap_in_block, category_only_in. split; [|tauto].
  intros [H|[H|[H|[H|[H|[H|[H|[H|[H|[H|[H|H]]]]]]]]]]]; [|exact H| | | | | | | | | |];
    other_block H text a.
Qed.

Lemma level_specified (text : string) :
  detect_experience_level text <> "not specified" <->
  exists level, mentions EXPERIENCE_LEVELS level (lower text).
Proof.
  unfold detect_experience_level. cbv zeta.
  set (detected := detect_in EXPERIENCE_LEVELS (lower text)).
  assert (Hd : forall level, level ∈ detected <->
                mentions EXPERIENCE_LEVELS level (lower text))
    by (intros level; apply elem_of_detect_in).
  clearbody detected. destruct detected as [|level l]; cbn [nonempty negb].
  - split; [congruence|]. intros [level H]. apply Hd in H.
    now apply not_elem_of_nil in H.
  - split.
    + intros _. exists level. apply Hd. now left.
    + intros _. split_cases; discriminate.
Qed.

Lemma analyze_resume_fields (resume_text job_description : string) :
  let r := analyze_resume resume_text job_description in
  jd_experience_level r = Some (detect_experience_level job_description) /\
  jd_years_required r = extract_years_experience job_description /\
  jd_education r = Some (detect_education_requirement job_description) /\
  resume_education r = Some (detect_education_requirement resume_text).
Proof.
  cbv zeta. unfold analyze_resume.
  destruct (calculate_match _ _) as [[[score matched] missing] extra].
  repeat split.
Qed.

(** X18. End to end, as the application calls the two functions: among the
    suggestions for the analysis of a resume against a job description, the
    experience-level item appears exactly when a level keyword occurs in the
    job description; the years item exactly when a number of years other
    than 0 is found there; the education item exactly when the job
    description holds a master's keyword and the resume holds neither a
    master's nor a doctorate keyword; and the critical-gap item exactly when
    a missing skill is counted at least twice in the job description. *)
Theorem pipeline_suggestions (resume_text job_description : string) :
  let categories :=
    map category
        (generate_suggestions resume_text (analyze_resume resume_text job_description)) in
  ("Experience Level" ∈ categories <->
   exists level, mentions EXPERIENCE_LEVELS level (lower job_description)) /\
  ("Years Required" ∈ categories <->
   exists n, extract_years_experience job_description = Some n /\ n <> 0%Z) /\
  ("Education" ∈ categories <->
   mentions EDUCATION_KEYWORDS "masters" (lower job_description) /\
   ~ mentions EDUCATION_KEYWORDS "masters" (lower resume_text) /\
   ~ mentions EDUCATION_KEYWORDS "phd" (lower resume_text)) /\
  ("Critical Skills Gap" ∈ categories <->
   exists skill missing n,
     missing_skills (analyze_resume resume_text job_description) = Some missing /\
     skill ∈ missing /\
     get_skill_frequency job_description (extract_skills job_description None)
       !! skill = Some n /\ 2 <= n).
Proof.
  cbv zeta.
  destruct (analyze_resume_fields resume_text job_description) as (Hl & Hy & He & Hr).
  split; [|split; [|split]]; cycle 3.
  { rewrite gap_in_cascade.
    destruct (high_priority_elem resume_text job_description)
      as (high & missing & Hh & Hm & Hs).
    rewrite Hh, Hm. cbn [default]. split.
    - intros Hne. destruct high as [|skill high]; [now destruct Hne|].
      destruct (proj1 (Hs skill) ltac:(now left)) as (Hin & n & Hn & H2).
      exists skill, missing, n. split; [reflexivity|]. split; [exact Hin|].
      split; [exact Hn | exact H2].
    - intros (skill & missing' & n & [= <-] & Hin & Hn & H2).
      assert (skill ∈ high) as Hh'.
      { apply Hs. split; [exact Hin|]. exists n. split; [exact Hn | exact H2]. }
      intros E. change (high = []) in E. subst high.
      now apply not_elem_of_nil in Hh'. }
  - rewrite level_in_cascade, Hl. cbn [default]. apply level_specified.
  - rewrite years_in_cascade, Hy. reflexivity.
  - pose proof (education_in_cascade resume_text
                  (analyze_resume resume_text job_description)) as H.
    cbv zeta in H. rewrite H, He, Hr. cbn [default].
    unfold detect_education_requirement. cbv zeta.
    unfold id, not. rewrite !elem_of_detect_in. reflexivity.
Qed.

(** ** analyze_resume: the skill sets *)

Lemma get_original_case_id (s : string) : canonical s -> get_original_case s = s.
Proof.
  intros Hs. pose proof (all_skills_lower s Hs) as Hl.
  pose proof (get_original_case_canonical s Hs) as Hc.
  pose proof (get_original_case_lower s) as Hg.
  rewrite Hl in Hc, Hg. now rewrite <- (all_skills_lower _ Hc).
Qed.

Lemma elem_of_restored (X : gset string) (x : string) :
  (forall y, y ∈ X -> canonical y) ->
  x ∈ map get_original_case (elements X) <-> x ∈ X.
Proof.
  intros HX. change (map get_original_case (elements X))
    with (get_original_case <$> elements X).
  rewrite list_elem_of_fmap. split.
  - intros [y [-> Hy]]. apply elem_of_elements in Hy.
    now rewrite (get_original_case_id y (HX y Hy)).
  - intros Hx. exists x. split; [symmetry; apply get_original_case_id, HX, Hx|].
    now apply elem_of_elements.
Qed.

Lemma calculate_match_elems (resume_skills jd_skills : list string) :
  Forall canonical resume_skills -> Forall canonical jd_skills ->
  let '(_, matched, missing, extra) := calculate_match resume_skills jd_skills in
  forall skill,
    (skill ∈ matched <-> skill ∈ resume_skills /\ skill ∈ jd_skills) /\
    (skill ∈ missing <-> skill ∈ jd_skills /\ skill ∉ resume_skills) /\
    (skill ∈ extra <-> skill ∈ resume_skills /\ skill ∉ jd_skills).
Proof.
  intros Hr Hj. unfold calculate_match.
  destruct jd_skills as [|j jd_skills]; simpl negb; cbv iota.
  - intros skill. set_solver.
  - assert (Hrl : map lower resume_skills = resume_skills).
    { apply map_lower_id. eapply Forall_impl; [exact Hr|]. apply all_skills_lower. }
    assert (Hjl : map lower (j :: jd_skills) = j :: jd_skills).
    { apply map_lower_id. eapply Forall_impl; [exact Hj|]. apply all_skills_lower. }
    rewrite Hrl, Hjl. generalize (j :: jd_skills) Hj. clear Hj Hjl Hrl. intros jd Hj.
    rewrite Forall_forall in Hr, Hj.
    intros skill. rewrite !elem_of_restored.
    + set_solver.
    + intros y Hy. apply Hr. set_solver.
    + intros y Hy. apply Hj. set_solver.
    + intros y Hy. apply Hr. set_solver.
Qed.

Lemma analyze_resume_elems (resume_text job_description : string) :
  let r := analyze_resume resume_text job_description in
  let resume_skills := extract_skills resume_text None in
  let jd_skills := extract_skills job_description None in
  exists matched missing extra,
    matched_skills r = Some matched /\ missing_skills r = Some missing /\
    extra_skills r = Some extra /\
    forall skill,
      (skill ∈ matched <-> skill ∈ resume_skills /\ skill ∈ jd_skills) /\
      (skill ∈ missing <-> skill ∈ jd_skills /\ skill ∉ resume_skills) /\
      (skill ∈ extra <-> skill ∈ resume_skills /\ skill ∉ jd_skills).
Proof.
  cbv zeta.
  pose proof (calculate_match_elems _ _ (extract_skills_canonical resume_text)
                (extract_skills_canonical job_description)) as H.
  unfold analyze_resume.
  destruct (calculate_match _ _) as [[[score matched] missing] extra].
  cbn [matched_skills missing_skills extra_skills].
  eexists _, _, _. repeat (split; [reflexivity|]).
  intros skill. rewrite !elem_of_sorted. apply H.
Qed.

(** X19. The three lists of an analysis, by the skills extracted from the two
    texts: matched holds those found in both, missing those found in the job
    description only, extra those found in the resume only. *)
Theorem analyze_resume_skill_sets (resume_text job_description : string) :
  let r := analyze_resume resume_text job_description in
  let resume_skills := extract_skills resume_text None in
  let jd_skills := extract_skills job_description None in
  exists matched missing extra,
    matched_skills r = Some matched /\ missing_skills r = Some missing /\
    extra_skills r = Some extra /\
    forall skill,
      (skill ∈ matched <-> skill ∈ resume_skills /\ skill ∈ jd_skills) /\
      (skill ∈ missing <-> skill ∈ jd_skills /\ skill ∉ resume_skills) /\
      (skill ∈ extra <-> skill ∈ resume_skills /\ skill ∉ jd_skills).
Proof. exact (analyze_resume_elems resume_text job_description). Qed.

(** ** analyze_resume: the score at its ends *)

Lemma extract_skills_bound (text : string) :
  length (extract_skills text None) <= 145.
Proof.
  change 145 with (length ALL_SKILLS).
  apply submseteq_length, NoDup_submseteq.
  - apply (elem_of_extract_skills text None).
  - apply (extract_skills_subset text None).
Qed.

Lemma round1_eq (q : Q) (z : Z) :
  (round1 q == inject_Z z)%Q <-> round_half_even (q * 10) = (10 * z)%Z.
Proof.
  unfold round1. generalize (round_half_even (q * 10)) as r. intros r.
  unfold Qeq, Qdiv, Qmult, Qinv, inject_Z. cbn [Qnum Qden Pos.mul]. lia.
Qed.

(** With at most a thousand skills asked for, rounding to one decimal does
    not reach 100 from below nor 0 from above. *)
Lemma round1_percentage_ends (m n : nat) :
  m <= n -> 0 < n -> n <= 1000 ->
  let score := round1 (inject_Z (Z.of_nat m) / inject_Z (Z.of_nat n) * 100) in
  ((score == 100)%Q <-> m = n) /\ ((score == 0)%Q <-> m = 0).
Proof.
  intros Hmn Hn Hk. cbv zeta.
  set (a := inject_Z (Z.of_nat m)). set (b := inject_Z (Z.of_nat n)).
  assert (Hb : (0 < b)%Q)
    by (unfold b; change 0%Q with (inject_Z 0); rewrite <- Zlt_Qlt; lia).
  assert (Ha : (0 <= a)%Q)
    by (unfold a; change 0%Q with (inject_Z 0); rewrite <- Zle_Qle; lia).
  split; split.
  - intros H. destruct (decide (m = n)) as [E|E]; [exact E|exfalso].
    assert (Hle : (round_half_even (a / b * 100 * 10) <= 999)%Z).
    { apply round_half_even_le.
      assert (H1 : (a / b <= 999 # 1000)%Q).
      { apply Qle_shift_div_r; [exact Hb|].
        assert (H2 : (inject_Z (1000 * Z.of_nat m) <= inject_Z (999 * Z.of_nat n))%Q)
          by (rewrite <- Zle_Qle; lia).
        rewrite !inject_Z_mult in H2. fold a b in H2.
        change (inject_Z 1000) with 1000%Q in H2.
        change (inject_Z 999) with 999%Q in H2. lra. }
      change (inject_Z 999) with 999%Q. lra. }
    pose proof (proj1 (round1_eq _ 100) H). lia.
  - intros E. apply (round1_whole _ 100).
    assert (Hab : (a == b)%Q) by (unfold a, b; now rewrite E).
    rewrite Hab. unfold Qdiv. rewrite Qmult_inv_r; [reflexivity|]. lra.
  - intros H. destruct (decide (m = 0)) as [E|E]; [exact E|exfalso].
    assert (Hge : (1 <= round_half_even (a / b * 100 * 10))%Z).
    { apply round_half_even_ge.
      assert (H1 : (1 # 1000 <= a / b)%Q).
      { apply Qle_shift_div_l; [exact Hb|].
        assert (H2 : (inject_Z (Z.of_nat n) <= inject_Z (1000 * Z.of_nat m))%Q)
          by (rewrite <- Zle_Qle; lia).
        rewrite !inject_Z_mult in H2. fold a b in H2.
        change (inject_Z 1000) with 1000%Q in H2. lra. }
      change (inject_Z 1) with 1%Q. lra. }
    pose proof (proj1 (round1_eq _ 0) H). lia.
  - intros E. apply (round1_whole _ 0). unfold a. rewrite E. cbn [Z.of_nat].
    change (inject_Z 0) with 0%Q. unfold Qdiv. rewrite !Qmult_0_l. reflexivity.
Qed.

Lemma analyze_resume_score_ends (resume_text job_description : string) :
  let r := analyze_resume resume_text job_description in
  exists score matched missing n_jd,
    match_score r = Some score /\ matched_skills r = Some matched /\
    missing_skills r = Some missing /\ jd_skill_count r = Some n_jd /\
    ((score == 100)%Q <-> n_jd <> 0 /\ missing = []) /\
    ((score == 0)%Q <-> matched = []).
Proof.
  cbv zeta.
  pose proof (calculate_match_lengths
                (extract_skills resume_text None) (extract_skills job_description None)
                (proj1 (elem_of_extract_skills resume_text None))
                (proj1 (elem_of_extract_skills job_description None))
                (extract_skills_lower resume_text)
                (extract_skills_lower job_description)) as H.
  pose proof (extract_skills_bound job_description) as Hb.
  unfold analyze_resume.
  destruct (calculate_match _ _) as [[[score matched] missing] extra].
  destruct H as (Hj & _ & Hs).
  cbn [match_score matched_skills missing_skills jd_skill_count].
  eexists _, _, _, _. repeat (split; [reflexivity|]).
  generalize dependent (length (extract_skills job_description None)). intros n Hj Hs Hb.
  assert (Hm : sorted matched = [] <-> length matched = 0).
  { rewrite <- (length_sorted matched). destruct (sorted matched); cbn; split; congruence || lia. }
  assert (Hi : sorted missing = [] <-> length missing = 0).
  { rewrite <- (length_sorted missing). destruct (sorted missing); cbn; split; congruence || lia. }
  rewrite Hm, Hi, Hs. destruct (Nat.eqb_spec n 0) as [E|E].
  - split; [|split; [lia | reflexivity]].
    split; [discriminate | intros [H _]; contradiction].
  - destruct (round1_percentage_ends (length matched) n) as [H100 H0]; [lia..|].
    rewrite H100, H0. split; [lia | reflexivity].
Qed.

(** X20. The score of an analysis is 100 exactly when the job description
    has skills and none is missing, and 0 exactly when no skill is matched:
    with a vocabulary of 145 skills, rounding to one decimal reaches neither
    end from inside. *)
Theorem analyze_resume_score_extremes (resume_text job_description : string) :
  let r := analyze_resume resume_text job_description in
  exists score matched missing n_jd,
    match_score r = Some score /\ matched_skills r = Some matched /\
    missing_skills r = Some missing /\ jd_skill_count r = Some n_jd /\
    ((score == 100)%Q <-> n_jd <> 0 /\ missing = []) /\
    ((score == 0)%Q <-> matched = []).
Proof. exact (analyze_resume_score_ends resume_text job_description). Qed.

(** ** The items about the missing categories *)

(** No name of the vocabulary stands in two of its lists, so the first list
    that holds a name is the only one. *)
Lemma category_of_vocabulary (s : string) :
  canonical s ->
  (category_key (lower s) = Some "programming" <-> s ∈ PROGRAMMING_LANGUAGES) /\
  (category_key (lower s) = Some "frameworks" <-> s ∈ FRAMEWORKS_LIBRARIES) /\
  (category_key (lower s) = Some "cloud_devops" <-> s ∈ CLOUD_DEVOPS).
Proof.
  intros Hs. apply list_elem_of_In in Hs.
  assert (Hall : forallb
            (fun s => bool_decide
               ((category_key (lower s) = Some "programming" <-> s ∈ PROGRAMMING_LANGUAGES) /\
                (category_key (lower s) = Some "frameworks" <-> s ∈ FRAMEWORKS_LIBRARIES) /\
                (category_key (lower s) = Some "cloud_devops" <-> s ∈ CLOUD_DEVOPS)))
            ALL_SKILLS = true) by (vm_compute; reflexivity).
  rewrite forallb_forall in Hall. exact (bool_decide_eq_true_1 _ (Hall s Hs)).
Qed.

Lemma nonempty_skills_of_category (key : string) (skills : list string) :
  nonempty (skills_of_category key skills) = true <->
  exists skill, skill ∈ skills /\ category_key (lower skill) = Some key.
Proof.
  unfold skills_of_category. split.
  - destruct (List.filter _ skills) as [|skill l] eqn:E; [discriminate|]. intros _.
    assert (In skill (List.filter
              (fun skill => bool_decide (category_key (lower skill) = Some key)) skills))
      as Hin by (rewrite E; now left).
    apply filter_In in Hin as [Hin Hk]. exists skill.
    split; [now apply list_elem_of_In | now apply bool_decide_eq_true in Hk].
  - intros (skill & Hin & Hk).
    assert (In skill (List.filter
              (fun skill => bool_decide (category_key (lower skill) = Some key)) skills))
      as H.
    { apply filter_In. split; [now apply list_elem_of_In | now apply bool_decide_eq_true]. }
    now destruct (List.filter _ skills).
Qed.

Lemma category_in_block (a : analysis_results) :
  let missing_categories := default ∅ (missing_categories a) in
  ("Programming Languages" ∈ map category (category_feedback a) <->
   nonempty (get_list missing_categories "programming") = true) /\
  ("Frameworks" ∈ map category (category_feedback a) <->
   nonempty (get_list missing_categories "frameworks") = true) /\
  ("Cloud/DevOps" ∈ map category (category_feedback a) <->
   nonempty (get_list missing_categories "cloud_devops") = true).
Proof.
  cbv zeta. unfold category_feedback. cbv zeta.
  destruct (nonempty (get_list _ "programming")),
           (nonempty (get_list _ "frameworks")),
           (nonempty (get_list _ "cloud_devops"));
    cbn [app map category]; (split; [|split]); split;
    try discriminate; try (intros _; set_solver); try reflexivity;
    intros H; exfalso; set_solver.
Qed.

Lemma category_in_cascade (text : string) (a : analysis_results) (c : string) :
  c ∈ ["Programming Languages"; "Frameworks"; "Cloud/DevOps"] ->
  c ∈ map category (generate_suggestions text a) <->
  c ∈ map category (category_feedback a).
Proof.
  intros Hc. rewrite category_only_in. split; [|tauto].
  intros [H|[H|[H|[H|[H|[H|[H|[H|[H|[H|[H|H]]]]]]]]]]]; [| |exact H| | | | | | | | |];
    other_block H text a.
Qed.

Lemma missing_categories_elems (resume_text job_description : string) (key : string) :
  key ∈ CATEGORY_KEYS ->
  let r := analyze_resume resume_text job_description in
  nonempty (get_list (default ∅ (missing_categories r)) key) = true <->
  exists skill,
    skill ∈ extract_skills job_description None /\
    (skill ∉ extract_skills resume_text None) /\
    category_key (lower skill) = Some key.
Proof.
  intros Hkey. cbv zeta.
  pose proof (calculate_match_elems _ _ (extract_skills_canonical resume_text)
                (extract_skills_canonical job_description)) as H.
  unfold analyze_resume.
  destruct (calculate_match _ _) as [[[score matched] missing] extra].
  cbn [missing_categories default]. unfold get_list, id.
  rewrite lookup_categorize_skills, bool_decide_eq_true_2 by exact Hkey.
  cbn [default]. rewrite nonempty_skills_of_category.
  split; intros (skill & Hs); exists skill; destruct (H skill) as (_ & Hm & _);
    rewrite Hm in *; tauto.
Qed.

(** X21. End to end, the three items about missing categories: each appears
    exactly when a skill of its list of the vocabulary is found in the job
    description and not in the resume.  The databases, the data skills, the
    tools and the soft skills have no item. *)
Theorem missing_category_items (resume_text job_description : string) :
  let categories :=
    map category
        (generate_suggestions resume_text (analyze_resume resume_text job_description)) in
  let missing skill :=
    skill ∈ extract_skills job_description None /\
    (skill ∉ extract_skills resume_text None) in
  ("Programming Languages" ∈ categories <->
   exists skill, missing skill /\ skill ∈ PROGRAMMING_LANGUAGES) /\
  ("Frameworks" ∈ categories <->
   exists skill, missing skill /\ skill ∈ FRAMEWORKS_LIBRARIES) /\
  ("Cloud/DevOps" ∈ categories <->
   exists skill, missing skill /\ skill ∈ CLOUD_DEVOPS).
Proof.
  cbv zeta.
  destruct (category_in_block (analyze_resume resume_text job_description))
    as (Hp & Hf & Hc).
  assert (Hv : forall skill, skill ∈ extract_skills job_description None ->
     (category_key (lower skill) = Some "programming" <-> skill ∈ PROGRAMMING_LANGUAGES) /\
     (category_key (lower skill) = Some "frameworks" <-> skill ∈ FRAMEWORKS_LIBRARIES) /\
     (category_key (lower skill) = Some "cloud_devops" <-> skill ∈ CLOUD_DEVOPS)).
  { intros skill Hs. apply category_of_vocabulary.
    exact (extract_skills_subset job_description None skill Hs). }
  assert (Hk : forall key,
            key ∈ ["programming"; "frameworks"; "cloud_devops"] -> key ∈ CATEGORY_KEYS).
  { intros key. unfold CATEGORY_KEYS. rewrite !elem_of_cons. tauto. }
  assert (Hin : forall c,
            c ∈ ["Programming Languages"; "Frameworks"; "Cloud/DevOps"] ->
            c ∈ map category
                  (generate_suggestions resume_text
                     (analyze_resume resume_text job_description)) <->
            c ∈ map category
                  (category_feedback (analyze_resume resume_text job_description))).
  { intros c Hcin. apply category_in_cascade. exact Hcin. }
  pose proof (fun key H => missing_categories_elems resume_text job_description key (Hk key H))
    as Hm.
  cbv zeta in Hm.
  set (r := analyze_resume resume_text job_description) in *.
  clearbody r. split; [|split].
  - etransitivity; [apply Hin; rewrite !elem_of_cons; tauto|].
    etransitivity; [exact Hp|].
    etransitivity; [apply Hm; rewrite !elem_of_cons; tauto|].
    split; intros (skill & H); exists skill; destruct (Hv skill) as (E & _ & _); tauto.
  - etransitivity; [apply Hin; rewrite !elem_of_cons; tauto|].
    etransitivity; [exact Hf|].
    etransitivity; [apply Hm; rewrite !elem_of_cons; tauto|].
    split; intros (skill & H); exists skill; destruct (Hv skill) as (_ & E & _); tauto.
  - etransitivity; [apply Hin; rewrite !elem_of_cons; tauto|].
    etransitivity; [exact Hc|].
    etransitivity; [apply Hm; rewrite !elem_of_cons; tauto|].
    split; intros (skill & H); exists skill; destruct (Hv skill) as (_ & _ & E); tauto.
Qed.

(** ** Skills written with a slash *)

Lemma lower_fixed (w : string) :
  chars_all (fun c => negb (is_upper c)) w = true -> lower w = w.
Proof.
  induction w as [|c w IH]; [reflexivity|]. cbn [chars_all lower].
  intros H. apply andb_true_iff in H as [Hc Hw]. apply negb_true_iff in Hc.
  unfold lower_char. now rewrite Hc, IH.
Qed.

Lemma rstrip_fixed (w : string) :
  chars_all (fun c => negb (is_space c)) w = true -> rstrip w = w.
Proof.
  induction w as [|c w IH]; [reflexivity|]. cbn [chars_all rstrip].
  intros H. apply andb_true_iff in H as [Hc Hw]. apply negb_true_iff in Hc.
  now rewrite Hc, IH.
Qed.

Lemma strip_fixed (w : string) :
  chars_all (fun c => negb (is_space c)) w = true -> strip w = w.
Proof.
  intros H. unfold strip.
  assert (lstrip w = w) as ->; [|now apply rstrip_fixed].
  destruct w as [|c w]; [reflexivity|]. cbn [chars_all lstrip] in *.
  apply andb_true_iff in H as [Hc _]. apply negb_true_iff in Hc. now rewrite Hc.
Qed.

Lemma word_char_facts (c : ascii) :
  norm_char c && negb (is_space c) = true ->
  negb (is_upper c) = true /\ negb (is_space c) = true /\ not_slash c = true.
Proof. destruct c as [[] [] [] [] [] [] [] []]; vm_compute; intuition congruence. Qed.

Lemma norm_char_word (c : ascii) :
  norm_char c = true -> is_space c || norm_char c && negb (is_space c) = true.
Proof. destruct c as [[] [] [] [] [] [] [] []]; vm_compute; congruence. Qed.

Lemma lower_char_slash (c : ascii) : not_slash (lower_char c) = not_slash c.
Proof. destruct c as [[] [] [] [] [] [] [] []]; reflexivity. Qed.

(** The words of a normalized text: no blank, no capital, no slash. *)
Lemma preprocess_text_words (text : string) :
  Forall (fun w => chars_all (fun c => norm_char c && negb (is_space c)) w = true)
         (split (preprocess_text text)).
Proof.
  apply chars_all_split_from; [reflexivity|].
  generalize (preprocess_text_chars text). apply chars_all_impl.
  exact norm_char_word.
Qed.

(** The aliases whose canonical form holds a slash. *)
Lemma alias_slash (k v : string) :
  SKILL_ALIASES !! k = Some v ->
  chars_all not_slash v = true \/ k ∈ ["ci/cd"; "cicd"; "ui"; "ux"].
Proof.
  unfold SKILL_ALIASES. intros H. apply elem_of_list_to_map_2 in H.
  apply list_elem_of_In in H. cbn [In] in H.
  repeat (destruct H as [H|H];
          [inversion H; first [left; reflexivity | right; set_solver]|]).
  destruct H.
Qed.

Lemma normalize_skill_not_slash (word : string) :
  chars_all (fun c => norm_char c && negb (is_space c)) word = true ->
  word ∉ ["cicd"; "ui"; "ux"] ->
  chars_all not_slash (normalize_skill word) = true.
Proof.
  intros Hw Hno.
  assert (Hu : chars_all (fun c => negb (is_upper c)) word = true)
    by (revert Hw; apply chars_all_impl; intros c Hc; now apply word_char_facts).
  assert (Hs : chars_all (fun c => negb (is_space c)) word = true)
    by (revert Hw; apply chars_all_impl; intros c Hc; now apply word_char_facts).
  assert (Hn : chars_all not_slash word = true)
    by (revert Hw; apply chars_all_impl; intros c Hc; now apply word_char_facts).
  unfold normalize_skill. cbv zeta. rewrite (lower_fixed _ Hu), (strip_fixed _ Hs).
  destruct (SKILL_ALIASES !! word) as [v|] eqn:E; cbn [default]; [|exact Hn].
  destruct (alias_slash _ _ E) as [H|H]; [exact H|exfalso].
  apply elem_of_cons in H as [->|H]; [discriminate Hn | contradiction].
Qed.

Lemma expand_aliases_not_slash (text_processed : string) (words : list string) :
  chars_all not_slash text_processed = true ->
  Forall (fun w => chars_all (fun c => norm_char c && negb (is_space c)) w = true) words ->
  Forall (fun w => w ∉ ["cicd"; "ui"; "ux"]) words ->
  chars_all not_slash (expand_aliases text_processed words) = true.
Proof.
  intros Ht Hw. revert text_processed Ht. unfold expand_aliases.
  induction Hw as [|w words Hw Hws IH]; intros tp Ht Hno; cbn [fold_left]; [exact Ht|].
  inversion Hno as [|w' words' Hw' Hno']; subst.
  apply IH; [|exact Hno']. destruct (negb _); [|exact Ht].
  rewrite !chars_all_append, Ht.
  apply andb_true_iff; split; [reflexivity|].
  now apply normalize_skill_not_slash.
Qed.

(** X22. A skill whose name holds a slash is extracted only through an
    alias: normalization turns every slash of the text into a blank, so the
    name can only come from what the alias loop appends, and the text then
    holds one of the words cicd, ui and ux. *)
Theorem slash_skill_only_by_alias (text : string) (skill_list : option (list string))
    (skill : string) :
  occurs_in "/" skill -> skill ∈ extract_skills text skill_list ->
  exists word, word ∈ split (preprocess_text text) /\ word ∈ ["cicd"; "ui"; "ux"].
Proof.
  intros Hs Hin.
  destruct (decide (Exists (fun w => w ∈ ["cicd"; "ui"; "ux"])
                           (split (preprocess_text text)))) as [He|Hne].
  - apply Exists_exists in He. exact He.
  - exfalso. apply not_Exists_Forall in Hne; [|intros x; apply _].
    apply elem_of_extract_skills in Hin as [_ Hf]. apply flanked_occurs in Hf.
    assert (Ht : chars_all not_slash (searched_text text) = true).
    { unfold searched_text. cbv zeta. rewrite !chars_all_append.
      apply andb_true_iff; split; [reflexivity|].
      apply andb_true_iff; split; [|reflexivity].
      apply expand_aliases_not_slash.
      - generalize (preprocess_text_chars text). apply chars_all_impl.
        intros c Hc. destruct c as [[] [] [] [] [] [] [] []]; vm_compute in Hc |- *; congruence.
      - apply preprocess_text_words.
      - exact Hne. }
    pose proof (chars_all_occurs not_slash _ _ Hf Ht) as Hl.
    rewrite chars_all_lower in Hl.
    pose proof (chars_all_occurs (fun c => not_slash (lower_char c)) _ _ Hs Hl) as H.
    discriminate H.
Qed.

Lemma slash_skill_only_by_alias_witness :
  occurs_in "/" "ci/cd" /\
  "ci/cd" ∈ extract_skills "Set up cicd for the team" None /\
  exists word, word ∈ split (preprocess_text "Set up cicd for the team") /\
               word ∈ ["cicd"; "ui"; "ux"].
Proof.
  assert (H1 : occurs_in "/" "ci/cd") by (now exists "ci", "cd").
  assert (H2 : "ci/cd" ∈ extract_skills "Set up cicd for the team" None).
  { assert (extract_skills "Set up cicd for the team" None = ["ci/cd"]) as ->
      by (vm_compute; reflexivity).
    now left. }
  split; [exact H1|]. split; [exact H2|].
  exact (slash_skill_only_by_alias _ None _ H1 H2).
Defined.

(** ** Aliases in any text *)

Lemma append_nil_r (s : string) : s +:+ "" = s.
Proof. induction s as [|c s IH]; [reflexivity|]. rewrite append_cons. now rewrite IH. Qed.

(** What the alias loop appends does not depend on the text it appends to,
    and it starts with a blank. *)
Lemma expand_aliases_suffix (words : list string) :
  exists suffix,
    (forall t, expand_aliases t words = t +:+ suffix) /\ right_ok suffix.
Proof.
  unfold expand_aliases. induction words as [|w words (suffix & IH & Hr)].
  - exists "". split; [intros t; now rewrite append_nil_r | now left].
  - cbn [fold_left]. destruct (negb _).
    + exists (" " +:+ normalize_skill w +:+ suffix). split.
      * intros t. now rewrite IH, !append_assoc.
      * right. exists " "%char, (normalize_skill w +:+ suffix). split; reflexivity.
    + exists suffix. split; [exact IH | exact Hr].
Qed.

Lemma expand_aliases_holds (words : list string) (word : string) :
  word ∈ words -> normalize_skill word <> word ->
  exists pre post,
    (forall t, expand_aliases t words
               = t +:+ pre +:+ " " +:+ normalize_skill word +:+ post) /\
    right_ok post.
Proof.
  intros Hin Hne. induction words as [|w words IH]; [now apply not_elem_of_nil in Hin|].
  destruct (decide (word = w)) as [<-|Hw].
  - destruct (expand_aliases_suffix words) as (suffix & Hs & Hr).
    exists "", suffix. split; [|exact Hr]. intros t.
    change (expand_aliases t (word :: words))
      with (expand_aliases
              (if negb (String.eqb (normalize_skill word) word)
               then t +:+ " " +:+ normalize_skill word else t) words).
    apply String.eqb_neq in Hne. rewrite Hne. cbn [negb].
    now rewrite Hs, !append_assoc, append_empty.
  - apply elem_of_cons in Hin as [E|Hin]; [contradiction|].
    destruct (IH Hin) as (pre & post & Hs & Hr).
    destruct (negb (String.eqb (normalize_skill w) w)) eqn:E.
    + exists (" " +:+ normalize_skill w +:+ pre), post. split; [|exact Hr]. intros t.
      change (expand_aliases t (w :: words))
        with (expand_aliases
                (if negb (String.eqb (normalize_skill w) w)
                 then t +:+ " " +:+ normalize_skill w else t) words).
      now rewrite E, Hs, !append_assoc.
    + exists pre, post. split; [|exact Hr]. intros t.
      change (expand_aliases t (w :: words))
        with (expand_aliases
                (if negb (String.eqb (normalize_skill w) w)
                 then t +:+ " " +:+ normalize_skill w else t) words).
      now rewrite E, Hs.
Qed.

(** The canonical forms are lower-case names, and but for ci/cd none is its
    own alias. *)
Lemma alias_value (k v : string) :
  SKILL_ALIASES !! k = Some v -> lower v = v /\ (v <> k \/ k = "ci/cd").
Proof.
  unfold SKILL_ALIASES. intros H. apply elem_of_list_to_map_2 in H.
  apply list_elem_of_In in H. cbn [In] in H.
  repeat (destruct H as [H|H];
          [inversion H; split;
             [reflexivity | first [left; discriminate | right; reflexivity]]|]).
  destruct H.
Qed.

Lemma right_ok_padded (post : string) : right_ok post -> right_ok (post +:+ " ").
Proof.
  intros [->|(c & post' & -> & Hc)]; right.
  - exists " "%char, "". split; reflexivity.
  - exists c, (post' +:+ " "). split; [apply append_cons | exact Hc].
Qed.

Lemma alias_word_flanked (text word v : string) :
  word ∈ split (preprocess_text text) -> SKILL_ALIASES !! word = Some v ->
  flanked (lower v) (searched_text text).
Proof.
  intros Hin Hv.
  assert (Hw : chars_all (fun c => norm_char c && negb (is_space c)) word = true).
  { pose proof (preprocess_text_words text) as H. rewrite Forall_forall in H. now apply H. }
  assert (Hu : chars_all (fun c => negb (is_upper c)) word = true)
    by (revert Hw; apply chars_all_impl; intros c Hc; now apply word_char_facts).
  assert (Hs : chars_all (fun c => negb (is_space c)) word = true)
    by (revert Hw; apply chars_all_impl; intros c Hc; now apply word_char_facts).
  assert (Hn : chars_all not_slash word = true)
    by (revert Hw; apply chars_all_impl; intros c Hc; now apply word_char_facts).
  assert (Hnorm : normalize_skill word = v).
  { unfold normalize_skill. cbv zeta.
    now rewrite (lower_fixed _ Hu), (strip_fixed _ Hs), Hv. }
  destruct (alias_value _ _ Hv) as [Hl Hne].
  assert (Hne' : normalize_skill word <> word).
  { rewrite Hnorm. destruct Hne as [Hne| ->]; [exact Hne | discriminate Hn]. }
  destruct (expand_aliases_holds _ _ Hin Hne') as (pre & post & He & Hr).
  unfold searched_text. cbv zeta. rewrite He, Hnorm, Hl.
  exists ((" " +:+ preprocess_text text +:+ pre) +:+ String " " ""), (post +:+ " ").
  split; [|split].
  - now rewrite !append_assoc, !append_cons, !append_empty.
  - right. exists (" " +:+ preprocess_text text +:+ pre), " "%char. split; reflexivity.
  - now apply right_ok_padded.
Qed.

(** X23. Whatever the text, a word of its normalized form that is an alias
    brings the canonical name among the extracted skills, provided the name
    is in the list of skills searched. *)
Theorem alias_word_extracted (text : string) (skill_list : option (list string))
    (word v : string) :
  word ∈ split (preprocess_text text) -> SKILL_ALIASES !! word = Some v ->
  v ∈ default ALL_SKILLS skill_list ->
  v ∈ extract_skills text skill_list.
Proof.
  intros Hin Hv Hl. apply elem_of_extract_skills. split; [exact Hl|].
  exact (alias_word_flanked text word v Hin Hv).
Qed.

Lemma alias_word_extracted_witness :
  "k8s" ∈ split (preprocess_text "Ran K8s clusters, wrote JS") /\
  SKILL_ALIASES !! "k8s" = Some "kubernetes" /\
  "kubernetes" ∈ default ALL_SKILLS None /\
  "kubernetes" ∈ extract_skills "Ran K8s clusters, wrote JS" None.
Proof.
  assert (H1 : "k8s" ∈ split (preprocess_text "Ran K8s clusters, wrote JS")).
  { assert (split (preprocess_text "Ran K8s clusters, wrote JS")
            = ["ran"; "k8s"; "clusters"; "wrote"; "js"]) as -> by (vm_compute; reflexivity).
    apply list_elem_of_In. cbn. tauto. }
  assert (H2 : SKILL_ALIASES !! "k8s" = Some "kubernetes") by (vm_compute; reflexivity).
  assert (H3 : "kubernetes" ∈ default ALL_SKILLS None).
  { apply list_elem_of_In. cbn. tauto. }
  split; [exact H1|]. split; [exact H2|]. split; [exact H3|].
  exact (alias_word_extracted _ None _ _ H1 H2 H3).
Defined.

(** ** A text analysed against itself *)

Lemma jd_skill_count_length (resume_text job_description : string) :
  jd_skill_count (analyze_resume resume_text job_description)
  = Some (length (extract_skills job_description None)).
Proof.
  unfold analyze_resume.
  destruct (calculate_match _ _) as [[[score matched] missing] extra]. reflexivity.
Qed.

(** X24. A text analysed against itself: nothing is missing, nothing is
    extra, the matched skills are the ones extracted from it, and the score
    is 100, or 0 when no skill is found in it. *)
Theorem analyze_resume_self (text : string) :
  let r := analyze_resume text text in
  exists score matched,
    match_score r = Some score /\ matched_skills r = Some matched /\
    missing_skills r = Some [] /\ extra_skills r = Some [] /\
    (forall skill, skill ∈ matched <-> skill ∈ extract_skills text None) /\
    (score == if nonempty matched then 100 else 0)%Q.
Proof.
  cbv zeta.
  destruct (analyze_resume_elems text text) as (matched & missing & extra & Hm & Hi & He & Hel).
  destruct (analyze_resume_score_ends text text)
    as (score & matched' & missing' & n & Hs & Hm' & Hi' & Hn & H100 & H0).
  rewrite (jd_skill_count_length text text) in Hn.
  set (r := analyze_resume text text) in *. clearbody r.
  set (skills := extract_skills text None) in *. clearbody skills.
  rewrite Hm in Hm'. rewrite Hi in Hi'. injection Hm' as <-. injection Hi' as <-.
  injection Hn as <-.
  assert (missing = []) as ->.
  { destruct missing as [|x l]; [reflexivity|exfalso].
    destruct (Hel x) as (_ & H & _). destruct (proj1 H ltac:(now left)) as [? ?].
    contradiction. }
  assert (extra = []) as ->.
  { destruct extra as [|x l]; [reflexivity|exfalso].
    destruct (Hel x) as (_ & _ & H). destruct (proj1 H ltac:(now left)) as [? ?].
    contradiction. }
  exists score, matched. repeat (split; [assumption|]).
  split.
  - intros skill. destruct (Hel skill) as (H & _ & _). rewrite H. tauto.
  - destruct matched as [|x l]; cbn [nonempty].
    + now apply H0.
    + apply H100. split; [|reflexivity].
      destruct (Hel x) as (H & _ & _). destruct (proj1 H ltac:(now left)) as [Hx _].
      destruct skills; [now apply not_elem_of_nil in Hx | discriminate].
Qed.

